(** * Fishnode layer 3: duplicate cache, receive and forward

    A shallow embedding of [fishnode.c] / [fishnode.h] (the [L3_IMPL] part):
    the packed header [struct L3_hdr], the chained hash table behind
    [insert_entry] / [get_timestamp], the callbacks
    [my_fishnode_l3_receive], [my_fish_l3_forward] and [my_fish_l3_send],
    the keyboard shell [keyboard_callback] and the argument handling of
    [main].

    Conventions of the model.
    - A frame is the byte buffer the [void *l3frame] pointer designates; the
      [int len] argument is a separate number, as in the C signature.  A
      header access on a buffer that holds fewer bytes than the header is
      undefined behaviour in C and [None] here.
    - Multi-byte header fields are loaded as the host loads them (the code
      uses no [ntohl]); the host is little-endian.
    - The libfish primitives the code calls through function pointers
      ([fish_l4.fish_l4_receive], [fish_l2.fish_l2_send],
      [fish_fcmp.send_fcmp_response]) are recorded as events, each with the
      contents of the buffer at the time of the call.  [fish_getaddress()] and
      [fish_fwd.longest_prefix_match] (the built-in one: [main] does not
      override it) are parameters.
    - Every call of [time(NULL)] is an input of the function that makes it. *)

From Stdlib Require Import ZArith Lia Strings.Byte.
From stdpp Require Import base option list strings.

Open Scope Z_scope.

(** ** C integer conversions *)

Module CInt.

Definition to_uint8 (z : Z) : Z := z mod 2 ^ 8.
Definition to_uint16 (z : Z) : Z := z mod 2 ^ 16.
Definition to_uint32 (z : Z) : Z := z mod 2 ^ 32.
(* size_t is 64 bits wide on the host. *)
Definition to_size_t (z : Z) : Z := z mod 2 ^ 64.
(* Conversion to a 32-bit int: reduction modulo 2^32 into
   [-2^31, 2^31). *)
Definition to_int (z : Z) : Z := (z + 2 ^ 31) mod 2 ^ 32 - 2 ^ 31.

End CInt.
Import CInt.

(** ** Constants of fish.h and fishnode.[ch] *)

(* #define ALL_NEIGHBORS htonl(0xFFFFFFFF) *)
Definition ALL_NEIGHBORS : Z := 0xFFFFFFFF.
(* #define MAX_TTL 64 *)
Definition MAX_TTL : Z := 64.
(* #define ENTRY_TTL_SECONDS 120 *)
Definition ENTRY_TTL_SECONDS : Z := 120.
(* #define HASH_TABLE_SIZE 1024 *)
Definition HASH_TABLE_SIZE : Z := 1024.
(* The two literal error codes handed to send_fcmp_response. *)
Definition FCMP_TTL_EXCEEDED : Z := 1.
Definition FCMP_NO_ROUTE : Z := 2.
(* The literal L2 protocol number handed to fish_l2_send. *)
Definition L2_PROTO_L3 : Z := 1.

(** ** Layout of [struct L3_hdr] (declared [__attribute__((packed))]) *)

Inductive L3_field : Set :=
| f_ttl          (* uint8_t ttl *)
| f_protocol     (* uint8_t protocol *)
| f_packet_id    (* uint32_t packet_id *)
| f_src          (* fnaddr_t src *)
| f_dst.         (* fnaddr_t dst *)

Global Instance L3_field_eq_dec : EqDecision L3_field.
Proof. solve_decision. Defined.

(* sizeof of the C type of each member; fnaddr_t is uint32_t. *)
Definition field_size (f : L3_field) : nat :=
  match f with
  | f_ttl => 1
  | f_protocol => 1
  | f_packet_id => 4
  | f_src => 4
  | f_dst => 4
  end.

(* The members in declaration order. *)
Definition L3_hdr_fields : list L3_field :=
  [f_ttl; f_protocol; f_packet_id; f_src; f_dst].

(* In a packed struct a member starts where the previous one ends. *)
Fixpoint offset_in (fs : list L3_field) (f : L3_field) : nat :=
  match fs with
  | [] => 0
  | g :: fs' => if decide (g = f) then 0 else field_size g + offset_in fs' f
  end.

Definition offsetof (f : L3_field) : nat := offset_in L3_hdr_fields f.

(* sizeof(struct L3_hdr) *)
Definition sizeof_L3_hdr : nat := sum_list (field_size <$> L3_hdr_fields).

(** ** Frame buffers *)

Definition byte_val (b : byte) : Z := Z.of_N (Byte.to_N b).

Definition byte_of_Z (z : Z) : byte :=
  default x00 (Byte.of_N (Z.to_N (to_uint8 z))).

Definition load8 (buf : list byte) (off : nat) : option Z :=
  byte_val <$> buf !! off.

(* Little-endian load of a 32-bit unsigned value. *)
Definition load32 (buf : list byte) (off : nat) : option Z :=
  b0 ← buf !! off;
  b1 ← buf !! (off + 1)%nat;
  b2 ← buf !! (off + 2)%nat;
  b3 ← buf !! (off + 3)%nat;
  Some (byte_val b0 + 2 ^ 8 * byte_val b1
        + 2 ^ 16 * byte_val b2 + 2 ^ 24 * byte_val b3).

Definition store8 (buf : list byte) (off : nat) (v : Z) : list byte :=
  <[off := byte_of_Z v]> buf.

(* Little-endian store of a 32-bit unsigned value. *)
Definition store32 (buf : list byte) (off : nat) (v : Z) : list byte :=
  <[(off + 3)%nat := byte_of_Z (v / 2 ^ 24)]>
    (<[(off + 2)%nat := byte_of_Z (v / 2 ^ 16)]>
       (<[(off + 1)%nat := byte_of_Z (v / 2 ^ 8)]>
          (<[off := byte_of_Z v]> buf))).

(* memcpy(buf + off, from, n), for a source that holds n bytes and a
   destination that holds off + n. *)
Definition memcpy (buf : list byte) (off : nat) (from : list byte) (n : nat)
    : list byte :=
  take off buf ++ take n from ++ drop (off + n) buf.

(* The header as the code sees it through the cast of [l3frame] to a
   pointer to [struct L3_hdr]. *)
Record L3_hdr : Set := {
  ttl : Z;
  protocol : Z;
  packet_id : Z;
  src : Z;
  dst : Z
}.

Definition read_L3_hdr (l3frame : list byte) : option L3_hdr :=
  t ← load8 l3frame (offsetof f_ttl);
  p ← load8 l3frame (offsetof f_protocol);
  i ← load32 l3frame (offsetof f_packet_id);
  s ← load32 l3frame (offsetof f_src);
  d ← load32 l3frame (offsetof f_dst);
  Some {| ttl := t; protocol := p; packet_id := i; src := s; dst := d |}.

(* header->ttl = v *)
Definition store_ttl (l3frame : list byte) (v : Z) : list byte :=
  store8 l3frame (offsetof f_ttl) v.

(* The byte pointer [l3frame + sizeof(struct L3_hdr)]. *)
Definition l4frame_of (l3frame : list byte) : list byte :=
  drop sizeof_L3_hdr l3frame.

(* int l4len = len - sizeof(struct L3_hdr): the subtraction is done in
   size_t, the result converted back to int. *)
Definition l4len_of (len : Z) : Z :=
  to_int (to_size_t (len - Z.of_nat sizeof_L3_hdr)).

(** ** The duplicate cache: [hash_table], [insert_entry], [get_timestamp] *)

(* struct HashEntry without its [next] link: a chain is a list. *)
Record HashEntry : Set := {
  e_src : Z;
  e_packet_id : Z;
  e_timestamp : Z
}.

Abbreviation chain := (list HashEntry).

(* HashEntry* hash_table[HASH_TABLE_SIZE]; a NULL bucket is the empty chain. *)
Abbreviation hash_table := (list (list HashEntry)).

(* A global array starts zeroed: every bucket NULL. *)
Definition hash_table_init : hash_table :=
  replicate (Z.to_nat HASH_TABLE_SIZE) ([] : chain).

Definition bucket (tbl : hash_table) (index : nat) : chain :=
  default [] (tbl !! index).

(* unsigned int hash_function(fnaddr_t src, uint32_t packet_id) *)
Definition hash_function (src packet_id : Z) : Z :=
  Z.lxor src packet_id mod HASH_TABLE_SIZE.

(* current->src == src && current->packet_id == packet_id *)
Definition same_key (src packet_id : Z) (current : HashEntry) : bool :=
  (e_src current =? src) && (e_packet_id current =? packet_id).

(* The while loop of insert_entry: [Some] is the chain with the first
   matching entry replaced in place, [None] means the loop reached NULL. *)
Fixpoint replace_entry (src packet_id : Z) (new_entry : HashEntry)
    (c : chain) : option chain :=
  match c with
  | [] => None
  | current :: next =>
      if same_key src packet_id current then Some (new_entry :: next)
      else cons current <$> replace_entry src packet_id new_entry next
  end.

(* void insert_entry(fnaddr_t src, uint16_t packet_id); [now] is the value
   of time(NULL).  The argument is converted to the parameter's type. *)
Definition insert_entry (now : Z) (tbl : hash_table) (src packet_id : Z)
    : hash_table :=
  let packet_id := to_uint16 packet_id in
  let index := Z.to_nat (hash_function src packet_id) in
  let new_entry :=
    {| e_src := src; e_packet_id := packet_id; e_timestamp := now |} in
  match bucket tbl index with
  | [] => <[index := [new_entry]]> tbl
  | c =>
      match replace_entry src packet_id new_entry c with
      | Some c' => <[index := c']> tbl
      | None => <[index := new_entry :: c]> tbl
      end
  end.

(* The while loop of get_timestamp: the first entry with the key. *)
Fixpoint find_entry (src packet_id : Z) (c : chain) : option HashEntry :=
  match c with
  | [] => None
  | current :: next =>
      if same_key src packet_id current then Some current
      else find_entry src packet_id next
  end.

(* time_t get_timestamp(fnaddr_t src, uint16_t packet_id); [now] is the
   value of time(NULL), read only when the key is found. *)
Definition get_timestamp (now : Z) (tbl : hash_table) (src packet_id : Z)
    : Z :=
  let packet_id := to_uint16 packet_id in
  let index := Z.to_nat (hash_function src packet_id) in
  match find_entry src packet_id (bucket tbl index) with
  | Some current =>
      if now - e_timestamp current >? ENTRY_TTL_SECONDS then -1
      else e_timestamp current
  | None => -1
  end.

(* The key of an entry, as the two loops compare it. *)
Definition entry_key (e : HashEntry) : Z * Z := (e_src e, e_packet_id e).

(* The number of entries allocated and not freed. *)
Definition cache_size (tbl : hash_table) : nat := sum_list (length <$> tbl).

(* The shape insert_entry gives the table: each chain holds a key at most
   once, and every entry sits in the bucket of its hash, with a 16-bit
   packet id. *)
Definition chain_ok (index : nat) (c : chain) : Prop :=
  NoDup (entry_key <$> c)
  ∧ Forall (λ e, Z.to_nat (hash_function (e_src e) (e_packet_id e)) = index
                 ∧ 0 ≤ e_packet_id e < 2 ^ 16) c.

Definition cache_ok (tbl : hash_table) : Prop :=
  length tbl = Z.to_nat HASH_TABLE_SIZE
  ∧ ∀ index c, tbl !! index = Some c → chain_ok index c.

(** ** The libfish primitives, as events *)

Inductive event : Set :=
| fish_l4_receive (l4frame : list byte) (len : Z) (proto : Z) (src : Z)
| fish_l2_send (l3frame : list byte) (next_hop : Z) (len : Z) (l2_proto : Z)
| send_fcmp_response (l3frame : list byte) (len : Z) (err : Z).

Definition is_l4_receive (e : event) : bool :=
  match e with fish_l4_receive _ _ _ _ => true | _ => false end.
Definition is_l2_send (e : event) : bool :=
  match e with fish_l2_send _ _ _ _ => true | _ => false end.
Definition is_fcmp_response (e : event) : bool :=
  match e with send_fcmp_response _ _ _ => true | _ => false end.

Definition is_fcmp_error (err : Z) (e : event) : bool :=
  match e with send_fcmp_response _ _ c => c =? err | _ => false end.

(* The buffer contents a primitive is handed, compared with a frame: the
   L3 primitives get the frame itself, the L4 one the bytes after its
   header. *)
Definition event_sees (l3frame : list byte) (e : event) : Prop :=
  match e with
  | fish_l4_receive l4frame _ _ _ => l4frame = l4frame_of l3frame
  | fish_l2_send f _ _ _ => f = l3frame
  | send_fcmp_response f _ _ => f = l3frame
  end.

Definition count_events (p : event → bool) (evs : list event) : nat :=
  length (filter (λ e, p e = true) evs).

(* A call with its length argument left out. *)
Definition forget_len (e : event) : event :=
  match e with
  | fish_l4_receive l4frame _ proto s => fish_l4_receive l4frame 0 proto s
  | fish_l2_send f next_hop _ l2_proto => fish_l2_send f next_hop 0 l2_proto
  | send_fcmp_response f _ err => send_fcmp_response f 0 err
  end.

(** ** The callbacks *)

Section Node.

(* fish_getaddress() *)
Variable node_addr : Z.
(* fish_fwd.longest_prefix_match; 0 is the invalid address, no route. *)
Variable longest_prefix_match : Z → Z.

(* int my_fish_l3_forward(void *l3frame, int len) *)
Definition my_fish_l3_forward (l3frame : list byte) (len : Z)
    : option (list event) :=
  header ← read_L3_hdr l3frame;
  let dest_addr := dst header in
  let my_addr := node_addr in
  if (ttl header =? 0) && negb (dest_addr =? my_addr) then
    Some [send_fcmp_response l3frame len FCMP_TTL_EXCEEDED]
  else
    let next_hop := longest_prefix_match dest_addr in
    let next_hop :=
      if dest_addr =? ALL_NEIGHBORS then ALL_NEIGHBORS else next_hop in
    let next_hop := if dest_addr =? my_addr then my_addr else next_hop in
    if next_hop =? 0 then
      Some [send_fcmp_response l3frame len FCMP_NO_ROUTE]
    else
      Some [fish_l2_send l3frame next_hop len L2_PROTO_L3].

(* int my_fishnode_l3_receive(void *l3frame, int len, uint8_t protocol).
   [now_lookup] and [now_insert] are the values of time(NULL) inside
   get_timestamp and insert_entry.  The result is the hash table and the
   frame buffer on return, and the primitives called, in order.
   [fish_l3.fish_l3_forward] is [my_fish_l3_forward], as [main] installs
   it. *)
Definition my_fishnode_l3_receive (now_lookup now_insert : Z)
    (tbl : hash_table) (l3frame : list byte) (len : Z) (protocol_arg : Z)
    : option (hash_table * list byte * list event) :=
  header ← read_L3_hdr l3frame;
  let dest_addr := dst header in
  let node_address := node_addr in
  if dest_addr =? node_address then
    Some (tbl, l3frame,
          [fish_l4_receive (l4frame_of l3frame) (l4len_of len)
             (protocol header) (src header)])
  else if dest_addr =? ALL_NEIGHBORS then
    let timestamp :=
      get_timestamp now_lookup tbl (src header) (packet_id header) in
    if negb (timestamp =? -1) then
      let tbl := insert_entry now_insert tbl (src header) (packet_id header) in
      if ttl header >? 1 then
        let l3frame := store_ttl l3frame (ttl header - 1) in
        header ← read_L3_hdr l3frame;
        fwd ← my_fish_l3_forward l3frame len;
        Some (tbl, l3frame,
              fish_l4_receive (l4frame_of l3frame) (l4len_of len)
                (protocol header) (src header) :: fwd)
      else Some (tbl, l3frame, [])
    else Some (tbl, l3frame, [])
  else
    if ttl header >? 1 then
      let l3frame := store_ttl l3frame (ttl header - 1) in
      fwd ← my_fish_l3_forward l3frame len;
      Some (tbl, l3frame, fwd)
    else Some (tbl, l3frame, []).

(* The frame my_fish_l3_send builds.  [block] is the malloc'ed block as
   malloc returns it, its contents indeterminate; [ttl] is the ttl already
   clamped. *)
Definition l3_send_frame (block l4frame : list byte) (len : Z)
    (dst_addr proto ttl : Z) : list byte :=
  let l3frame := block in
  let l3frame := store32 l3frame (offsetof f_dst) dst_addr in
  let l3frame := store32 l3frame (offsetof f_src) node_addr in
  let l3frame := store8 l3frame (offsetof f_protocol) proto in
  let l3frame := store8 l3frame (offsetof f_ttl) ttl in
  memcpy l3frame sizeof_L3_hdr l4frame (Z.to_nat len).

(* if (ttl == 0 || ttl > MAX_TTL) ttl = MAX_TTL; on the uint8_t parameter. *)
Definition l3_send_ttl (ttl_arg : Z) : Z :=
  let ttl := to_uint8 ttl_arg in
  if (ttl =? 0) || (ttl >? MAX_TTL) then MAX_TTL else ttl.

(* int my_fish_l3_send(void *l4frame, int len, fnaddr_t dst_addr,
                       uint8_t proto, uint8_t ttl).
   Defined when [len] is not negative, [l3_header_len + len] fits an int,
   [l4frame] holds [len] bytes and the block has the size asked of malloc;
   a failing malloc is not modelled.  The frame is freed on return. *)
Definition my_fish_l3_send (block l4frame : list byte) (len : Z)
    (dst_addr proto ttl_arg : Z) : option (list event) :=
  let ttl := l3_send_ttl ttl_arg in
  let l3_header_len := Z.of_nat sizeof_L3_hdr in
  if decide (0 ≤ len ∧ l3_header_len + len < 2 ^ 31
             ∧ (Z.to_nat len ≤ length l4frame)%nat
             ∧ Z.of_nat (length block) = l3_header_len + len)
  then
    let l3frame := l3_send_frame block l4frame len dst_addr proto ttl in
    my_fish_l3_forward l3frame (l3_header_len + len)
  else None.

End Node.

(* A run of the receive callback over successive frames, from a given
   table: the table is the only state carried from one call to the next. *)
Record rx : Set := {
  rx_now_lookup : Z;
  rx_now_insert : Z;
  rx_frame : list byte;
  rx_len : Z;
  rx_protocol : Z
}.

Fixpoint receive_all (node_addr : Z) (lpm : Z → Z) (tbl : hash_table)
    (frames : list rx) : option (hash_table * list event) :=
  match frames with
  | [] => Some (tbl, [])
  | r :: frames' =>
      '(tbl', _, evs) ← my_fishnode_l3_receive node_addr lpm
                          (rx_now_lookup r) (rx_now_insert r) tbl
                          (rx_frame r) (rx_len r) (rx_protocol r);
      '(tbl'', evs') ← receive_all node_addr lpm tbl' frames';
      Some (tbl'', evs ++ evs')
  end.

(* The pair (s, i) was seen as a broadcast within the last 120 seconds
   before [now]: one of the frames received carried it. *)
Definition seen_within (frames : list rx) (s i now : Z) : Prop :=
  ∃ r h,
    r ∈ frames
    ∧ read_L3_hdr (rx_frame r) = Some h
    ∧ dst h = ALL_NEIGHBORS ∧ src h = s ∧ packet_id h = i
    ∧ 0 ≤ now - rx_now_lookup r ≤ ENTRY_TTL_SECONDS.

(** ** Building frames for examples *)

Definition bytes_of_u32 (v : Z) : list byte :=
  [byte_of_Z v; byte_of_Z (v / 2 ^ 8);
   byte_of_Z (v / 2 ^ 16); byte_of_Z (v / 2 ^ 24)].

Definition mk_frame (h : L3_hdr) (payload : list byte) : list byte :=
  [byte_of_Z (ttl h); byte_of_Z (protocol h)]
  ++ bytes_of_u32 (packet_id h) ++ bytes_of_u32 (src h)
  ++ bytes_of_u32 (dst h) ++ payload.

(** ** The keyboard shell and the command line *)

(* A [string] stands for a C string: the characters before the terminator.
   A NUL character inside one ends it, as in C. *)
Definition char_val (c : Ascii.ascii) : Z := Z.of_N (Ascii.N_of_ascii c).

(* tolower, in the C locale. *)
Definition tolower (c : Ascii.ascii) : Ascii.ascii :=
  if (65 <=? char_val c) && (char_val c <=? 90)
  then Ascii.ascii_of_N (Z.to_N (char_val c + 32))
  else c.

(* strcasecmp: the difference of the first two lowered characters that
   differ, 0 when the strings end together. *)
Fixpoint strcasecmp (s1 s2 : string) : Z :=
  match s1, s2 with
  | EmptyString, EmptyString => 0
  | EmptyString, String c2 _ => 0 - char_val (tolower c2)
  | String c1 _, EmptyString => char_val (tolower c1) - 0
  | String c1 r1, String c2 r2 =>
      if char_val (tolower c1) - char_val (tolower c2) =? 0
      then if char_val c1 =? 0 then 0 else strcasecmp r1 r2
      else char_val (tolower c1) - char_val (tolower c2)
  end.

(* The characters of a string up to its first NUL. *)
Fixpoint c_str (s : string) : string :=
  match s with
  | EmptyString => EmptyString
  | String c r => if char_val c =? 0 then EmptyString else String c (c_str r)
  end.

Fixpoint lower (s : string) : string :=
  match s with
  | EmptyString => EmptyString
  | String c r => String (tolower c) (lower r)
  end.

(* The calls keyboard_callback makes. *)
Inductive ui_call : Set :=
| fish_print_neighbor_table
| fish_print_arp_table
| fish_print_forwarding_table
  (* fish_fwd.iterate_entries(&print_route, NULL, FISH_FWD_TYPE_BROADCAST) *)
| iterate_entries_print_route
| fish_print_dv_state
| fish_main_exit
| fish_print_lsa_topo
| printf_help
| printf_unknown_command (line : string)
| printf_prompt
| fflush_stdout.

(* line[0] != 0 *)
Definition first_char_not_nul (line : string) : bool :=
  match line with
  | EmptyString => false
  | String c _ => negb (char_val c =? 0)
  end.

(* static void keyboard_callback(char *line); [noprompt] is the static
   variable of that name. *)
Definition keyboard_callback (noprompt : bool) (line : string)
    : list ui_call :=
  (if strcasecmp "show neighbors" line =? 0 then [fish_print_neighbor_table]
   else if strcasecmp "show arp" line =? 0 then [fish_print_arp_table]
   else if strcasecmp "show route" line =? 0 then
     [fish_print_forwarding_table; iterate_entries_print_route]
   else if strcasecmp "show dv" line =? 0 then [fish_print_dv_state]
   else if (strcasecmp "quit" line =? 0) || (strcasecmp "exit" line =? 0)
   then [fish_main_exit]
   else if strcasecmp "show topo" line =? 0 then [fish_print_lsa_topo]
   else if (strcasecmp "help" line =? 0) || (strcasecmp "?" line =? 0)
   then [printf_help]
   else if first_char_not_nul line then [printf_unknown_command line]
   else [])
  ++ (if noprompt then [] else [printf_prompt])
  ++ [fflush_stdout].

(* The calls main makes up to the point where it joins the network. *)
Inductive main_call : Set :=
| fish_enable_dvrouting_builtin (flags : Z)
| printf_usage (argv0 : string)
| sigaction_SIGINT
| perror_sigaction
| fish_setdebuglevel (level : Z)
| fish_setdebugfile_stdout
| fish_joinnetwork (fishhead : string)
| fish_joinnetwork_addr (fishhead : option string) (addr : Z).

(* #define FISH_DEBUG_INTERNAL 8 *)
Definition FISH_DEBUG_INTERNAL : Z := 8.

(* argv[i]: a string below argc, the NULL pointer at argc, and nothing
   that may be read beyond. *)
Definition argv_at (argv : list string) (i : nat)
    : option (option string) :=
  match argv !! i with
  | Some a => Some (Some a)
  | None => if decide (i = length argv) then Some None else None
  end.

(* int main(int argc, char **argv), from its first statement to the call
   that joins the network: the calls made, then [Some code] when main
   returns before joining, [None] when it goes on after the join.
   [fn_aton] is the libfish parser of addresses, [sigaction_ok] tells
   whether sigaction succeeded.  The result is [None] where main reads
   argv beyond its end or hands a NULL pointer to a string conversion. *)
Definition main_until_join (fn_aton : string → Z) (sigaction_ok : bool)
    (argv : list string) : option (list main_call * option Z * bool) :=
  let argc := Z.of_nat (length argv) in
  let calls := [fish_enable_dvrouting_builtin 1] in
  if negb (argc =? 2) && negb (argc =? 3) && negb (argc =? 4) then
    argv0 ← argv !! 0%nat;
    Some (calls ++ [printf_usage argv0], Some 1, false)
  else
    arg1 ← argv !! 1%nat;
    let noprompt := strcasecmp arg1 "-noprompt" =? 0 in
    let arg_offset := if noprompt then 2%nat else 1%nat in
    let calls := calls ++ [sigaction_SIGINT] in
    if negb sigaction_ok then
      Some (calls ++ [perror_sigaction], Some 2, noprompt)
    else
      let calls :=
        calls ++ [fish_setdebuglevel FISH_DEBUG_INTERNAL;
                  fish_setdebugfile_stdout] in
      if argc - Z.of_nat arg_offset =? 1 then
        fishhead ← argv !! arg_offset;
        Some (calls ++ [fish_joinnetwork fishhead], None, noprompt)
      else
        fishhead ← argv_at argv arg_offset;
        addr ← argv_at argv (arg_offset + 1);
        addr ← addr;
        Some (calls ++ [fish_joinnetwork_addr fishhead (fn_aton addr)],
              None, noprompt).

(* A call with the text it prints left out. *)
Definition forget_text (c : ui_call) : ui_call :=
  match c with
  | printf_unknown_command _ => printf_unknown_command EmptyString
  | c => c
  end.

(** ** Sample inputs *)

(* A node with address 7 and an empty forwarding table. *)
Definition example_node : Z := 7.
Definition no_routes : Z → Z := λ _, 0.

(* A broadcast from node 9, packet id 7, ttl 5, two bytes of payload. *)
Definition bcast_hdr : L3_hdr :=
  {| ttl := 5; protocol := 3; packet_id := 7; src := 9;
     dst := ALL_NEIGHBORS |}.
Definition bcast_frame : list byte := mk_frame bcast_hdr [x61; x62].

(* The cache after [insert_entry(9, 7)] at time 100. *)
Definition seen_table : list (list HashEntry) :=
  insert_entry 100 hash_table_init 9 7.

(* From node 9 to node 12, which is neither node 7 nor broadcast. *)
Definition other_hdr : L3_hdr :=
  {| ttl := 5; protocol := 3; packet_id := 7; src := 9; dst := 12 |}.
Definition other_frame : list byte := mk_frame other_hdr [x61; x62].

(* The same with its hop budget used up. *)
Definition other_ttl0_hdr : L3_hdr :=
  {| ttl := 0; protocol := 3; packet_id := 7; src := 9; dst := 12 |}.
Definition other_ttl0_frame : list byte := mk_frame other_ttl0_hdr [x61; x62].

(* From node 9 to node 7 itself. *)
Definition self_hdr : L3_hdr :=
  {| ttl := 5; protocol := 3; packet_id := 7; src := 9; dst := 7 |}.
Definition self_frame : list byte := mk_frame self_hdr [x61; x62].

(** * Properties *)

(** ** Bytes and header access *)

Lemma byte_val_range (b : byte) : 0 ≤ byte_val b < 256.
Proof.
  unfold byte_val. pose proof (Byte.to_N_bounded b). lia.
Qed.

Lemma to_uint8_range (z : Z) : 0 ≤ to_uint8 z < 256.
Proof. unfold to_uint8. apply Z.mod_pos_bound. lia. Qed.

Lemma byte_val_of_Z (z : Z) : byte_val (byte_of_Z z) = to_uint8 z.
Proof.
  unfold byte_of_Z, byte_val.
  pose proof (to_uint8_range z) as Hr.
  destruct (Byte.of_N (Z.to_N (to_uint8 z))) as [b|] eqn:Hb; simpl.
  - apply Byte.to_of_N in Hb. rewrite Hb. lia.
  - apply Byte.of_N_None_iff in Hb. lia.
Qed.

Lemma offsets_computed :
  offsetof f_ttl = 0%nat ∧ offsetof f_protocol = 1%nat
  ∧ offsetof f_packet_id = 2%nat ∧ offsetof f_src = 6%nat
  ∧ offsetof f_dst = 10%nat ∧ sizeof_L3_hdr = 14%nat.
Proof. repeat split; reflexivity. Qed.

Lemma load32_is_Some (buf : list byte) (off : nat) :
  (off + 4 ≤ length buf)%nat → is_Some (load32 buf off).
Proof.
  intros Hlen. unfold load32.
  destruct (lookup_lt_is_Some_2 buf off) as [b0 Hb0]; [lia|]; rewrite Hb0.
  destruct (lookup_lt_is_Some_2 buf (off + 1)) as [b1 ->]; [lia|].
  destruct (lookup_lt_is_Some_2 buf (off + 2)) as [b2 ->]; [lia|].
  destruct (lookup_lt_is_Some_2 buf (off + 3)) as [b3 ->]; [lia|].
  simpl. eauto.
Qed.

(* The header can be read exactly when the buffer holds all of it. *)
Lemma read_L3_hdr_is_Some (l3frame : list byte) :
  is_Some (read_L3_hdr l3frame) ↔ (sizeof_L3_hdr ≤ length l3frame)%nat.
Proof.
  destruct offsets_computed as (Ht & Hp & Hi & Hs & Hd & Hsz).
  unfold read_L3_hdr. rewrite Ht, Hp, Hi, Hs, Hd, Hsz. split.
  - intros [h Hh].
    destruct (le_lt_dec 14 (length l3frame)) as [|Hshort]; [done|].
    assert (load32 l3frame 10 = None) as Hnone.
    { unfold load32. simpl.
      rewrite (lookup_ge_None_2 l3frame 13) by lia.
      destruct (l3frame !! 10%nat); simpl; [|done].
      destruct (l3frame !! 11%nat); simpl; [|done].
      destruct (l3frame !! 12%nat); simpl; done. }
    rewrite Hnone in Hh.
    destruct (load8 l3frame 0); simpl in Hh; [|done].
    destruct (load8 l3frame 1); simpl in Hh; [|done].
    destruct (load32 l3frame 2); simpl in Hh; [|done].
    destruct (load32 l3frame 6); simpl in Hh; done.
  - intros Hlen. unfold load8.
    destruct (lookup_lt_is_Some_2 l3frame 0) as [b0 Hb0]; [lia|]; rewrite Hb0.
    destruct (lookup_lt_is_Some_2 l3frame 1) as [b1 Hb1]; [lia|]; rewrite Hb1.
    destruct (load32_is_Some l3frame 2) as [i Hi']; [lia|]; rewrite Hi'.
    destruct (load32_is_Some l3frame 6) as [s Hs']; [lia|]; rewrite Hs'.
    destruct (load32_is_Some l3frame 10) as [d Hd']; [lia|]; rewrite Hd'.
    simpl. eauto.
Qed.

Lemma store_ttl_length (l3frame : list byte) (v : Z) :
  length (store_ttl l3frame v) = length l3frame.
Proof. unfold store_ttl, store8. apply length_insert. Qed.

(* A store to the ttl member touches the byte at its offset only. *)
Lemma store_ttl_lookup_ne (l3frame : list byte) (v : Z) (i : nat) :
  i ≠ offsetof f_ttl → store_ttl l3frame v !! i = l3frame !! i.
Proof.
  intros Hi. unfold store_ttl, store8.
  apply list_lookup_insert_ne. congruence.
Qed.

Lemma l4frame_of_store_ttl (l3frame : list byte) (v : Z) :
  l4frame_of (store_ttl l3frame v) = l4frame_of l3frame.
Proof.
  unfold l4frame_of, store_ttl, store8.
  apply drop_insert_lt.
  destruct offsets_computed as (-> & _ & _ & _ & _ & ->). lia.
Qed.

(* Reading the header back after [header->ttl = v]. *)
Lemma read_L3_hdr_store_ttl (l3frame : list byte) (h : L3_hdr) (v : Z) :
  read_L3_hdr l3frame = Some h →
  read_L3_hdr (store_ttl l3frame v)
  = Some {| ttl := to_uint8 v; protocol := protocol h;
            packet_id := packet_id h; src := src h; dst := dst h |}.
Proof.
  destruct offsets_computed as (Ht & Hp & Hi & Hs & Hd & _).
  unfold read_L3_hdr, store_ttl, store8, load8, load32.
  rewrite Ht, Hp, Hi, Hs, Hd.
  destruct l3frame as [|b0 rest]; [discriminate|].
  cbn [lookup list_lookup insert list_insert Nat.add fmap option_fmap
       option_map mbind option_bind].
  rewrite byte_val_of_Z.
  intros Hread.
  destruct (rest !! 0%nat); [|discriminate]. cbn in Hread |- *.
  repeat match goal with
  | H : context [match ?x with Some _ => _ | None => _ end] |- _ =>
      destruct x; [|discriminate]
  | H : context [(?x ≫= _)] |- _ => destruct x; [|discriminate]; cbn in H |- *
  end.
  inversion Hread; subst; reflexivity.
Qed.

(** ** The duplicate cache *)

Lemma to_uint16_idem (z : Z) : to_uint16 (to_uint16 z) = to_uint16 z.
Proof. unfold to_uint16. apply Z.mod_mod. lia. Qed.

(* The hash is always a valid index of the bucket array. *)
Lemma hash_function_range (s i : Z) :
  0 ≤ hash_function s i < HASH_TABLE_SIZE.
Proof. unfold hash_function, HASH_TABLE_SIZE. apply Z.mod_pos_bound. lia. Qed.

Lemma hash_index_lt (tbl : hash_table) (s i : Z) :
  length tbl = Z.to_nat HASH_TABLE_SIZE →
  (Z.to_nat (hash_function s i) < length tbl)%nat.
Proof. intros ->. pose proof (hash_function_range s i). lia. Qed.

Lemma bucket_init (index : nat) : bucket hash_table_init index = [].
Proof.
  unfold bucket, hash_table_init.
  destruct (_ !! index) as [c|] eqn:Hc; [|reflexivity].
  apply lookup_replicate in Hc as [-> _]. reflexivity.
Qed.

Lemma bucket_insert_eq (tbl : hash_table) (index : nat) (c : chain) :
  (index < length tbl)%nat → bucket (<[index := c]> tbl) index = c.
Proof.
  intros Hlt. unfold bucket. rewrite list_lookup_insert_eq by exact Hlt.
  reflexivity.
Qed.

Lemma insert_entry_length (now : Z) (tbl : hash_table) (s i : Z) :
  length (insert_entry now tbl s i) = length tbl.
Proof.
  unfold insert_entry.
  destruct (bucket tbl _) as [|e c]; [apply length_insert|].
  destruct (replace_entry _ _ _ _); apply length_insert.
Qed.

(* The two loops agree: insert_entry finds a slot to overwrite exactly
   when get_timestamp finds an entry. *)
Lemma replace_entry_None (s i : Z) (new_entry : HashEntry) (c : chain) :
  replace_entry s i new_entry c = None ↔ find_entry s i c = None.
Proof.
  induction c as [|current next IH]; simpl; [tauto|].
  destruct (same_key s i current); [split; discriminate|].
  rewrite <- IH. destruct (replace_entry s i new_entry next); simpl.
  - split; discriminate.
  - tauto.
Qed.

Lemma find_entry_replace_entry (s i : Z) (new_entry : HashEntry)
    (c c' : chain) :
  same_key s i new_entry = true →
  replace_entry s i new_entry c = Some c' →
  find_entry s i c' = Some new_entry.
Proof.
  intros Hkey. revert c'.
  induction c as [|current next IH]; intros c'; simpl; [discriminate|].
  destruct (same_key s i current) eqn:Hcur.
  - intros [= <-]. simpl. rewrite Hkey. reflexivity.
  - destruct (replace_entry s i new_entry next) as [next'|]; simpl;
      [|discriminate].
    intros [= <-]. simpl. rewrite Hcur. apply IH. reflexivity.
Qed.

Lemma same_key_new_entry (now s i : Z) :
  same_key s i {| e_src := s; e_packet_id := i; e_timestamp := now |} = true.
Proof. unfold same_key. simpl. rewrite !Z.eqb_refl. reflexivity. Qed.

(* What a lookup sees right after an insertion of the same key. *)
Lemma find_entry_insert_entry (now : Z) (tbl : hash_table) (s i : Z) :
  length tbl = Z.to_nat HASH_TABLE_SIZE →
  find_entry s (to_uint16 i)
    (bucket (insert_entry now tbl s i)
            (Z.to_nat (hash_function s (to_uint16 i))))
  = Some {| e_src := s; e_packet_id := to_uint16 i; e_timestamp := now |}.
Proof.
  intros Hlen. unfold insert_entry.
  pose proof (hash_index_lt tbl s (to_uint16 i) Hlen) as Hlt.
  pose proof (same_key_new_entry now s (to_uint16 i)) as Hkey.
  destruct (bucket tbl _) as [|e c] eqn:Hb.
  - rewrite bucket_insert_eq by exact Hlt. simpl. rewrite Hkey. reflexivity.
  - destruct (replace_entry _ _ _ (e :: c)) as [c'|] eqn:Hrep;
      rewrite bucket_insert_eq by exact Hlt.
    + eapply find_entry_replace_entry; eassumption.
    + cbn [find_entry]. rewrite Hkey. reflexivity.
Qed.

Lemma get_timestamp_insert_entry (t now : Z) (tbl : hash_table) (s i : Z) :
  length tbl = Z.to_nat HASH_TABLE_SIZE →
  get_timestamp now (insert_entry t tbl s i) s i
  = if now - t >? ENTRY_TTL_SECONDS then -1 else t.
Proof.
  intros Hlen. unfold get_timestamp.
  rewrite find_entry_insert_entry by exact Hlen. reflexivity.
Qed.

(* Nothing is found in the zeroed table. *)
Lemma get_timestamp_init (now s i : Z) :
  get_timestamp now hash_table_init s i = -1.
Proof. unfold get_timestamp. rewrite bucket_init. reflexivity. Qed.

(** ** Forwarding and reception, branch by branch *)

Lemma read_L3_hdr_ttl_range (l3frame : list byte) (h : L3_hdr) :
  read_L3_hdr l3frame = Some h → 0 ≤ ttl h < 256.
Proof.
  unfold read_L3_hdr, load8.
  destruct (l3frame !! offsetof f_ttl) as [b|]; [simpl|discriminate].
  destruct (byte_val <$> l3frame !! offsetof f_protocol); [simpl|discriminate].
  destruct (load32 l3frame (offsetof f_packet_id)); [simpl|discriminate].
  destruct (load32 l3frame (offsetof f_src)); [simpl|discriminate].
  destruct (load32 l3frame (offsetof f_dst)); [simpl|discriminate].
  intros [= <-]. simpl. apply byte_val_range.
Qed.

(* The header seen after [header->ttl--], when ttl was above 1. *)
Lemma read_L3_hdr_decrement (l3frame : list byte) (h : L3_hdr) :
  read_L3_hdr l3frame = Some h → 1 < ttl h →
  read_L3_hdr (store_ttl l3frame (ttl h - 1))
  = Some {| ttl := ttl h - 1; protocol := protocol h;
            packet_id := packet_id h; src := src h; dst := dst h |}.
Proof.
  intros Hread Httl.
  pose proof (read_L3_hdr_ttl_range _ _ Hread) as Hr.
  rewrite (read_L3_hdr_store_ttl _ _ _ Hread).
  unfold to_uint8. rewrite Z.mod_small by lia. reflexivity.
Qed.

Section NodeProperties.

Variable node_addr : Z.
Variable lpm : Z → Z.

Local Abbreviation forward := (my_fish_l3_forward node_addr lpm).
Local Abbreviation receive := (my_fishnode_l3_receive node_addr lpm).

Lemma forward_ttl_exceeded l3frame len h :
  read_L3_hdr l3frame = Some h → ttl h = 0 → dst h ≠ node_addr →
  forward l3frame len
  = Some [send_fcmp_response l3frame len FCMP_TTL_EXCEEDED].
Proof.
  intros Hread Httl Hdst. unfold my_fish_l3_forward.
  rewrite Hread. simpl. rewrite Httl. simpl.
  destruct (Z.eqb_spec (dst h) node_addr); [contradiction|reflexivity].
Qed.

Lemma forward_self l3frame len h :
  read_L3_hdr l3frame = Some h → dst h = node_addr →
  forward l3frame len
  = Some [if node_addr =? 0
          then send_fcmp_response l3frame len FCMP_NO_ROUTE
          else fish_l2_send l3frame node_addr len L2_PROTO_L3].
Proof.
  intros Hread Hdst. unfold my_fish_l3_forward.
  rewrite Hread. simpl. rewrite Hdst, Z.eqb_refl, andb_false_r.
  destruct (node_addr =? 0); reflexivity.
Qed.

Lemma forward_broadcast l3frame len h :
  read_L3_hdr l3frame = Some h → ttl h ≠ 0 →
  dst h = ALL_NEIGHBORS → dst h ≠ node_addr →
  forward l3frame len
  = Some [fish_l2_send l3frame ALL_NEIGHBORS len L2_PROTO_L3].
Proof.
  intros Hread Httl Hall Hdst. unfold my_fish_l3_forward.
  rewrite Hread. simpl.
  destruct (Z.eqb_spec (ttl h) 0); [contradiction|]. simpl.
  destruct (Z.eqb_spec (dst h) ALL_NEIGHBORS); [|contradiction].
  destruct (Z.eqb_spec (dst h) node_addr); [contradiction|].
  reflexivity.
Qed.

Lemma forward_unicast l3frame len h :
  read_L3_hdr l3frame = Some h → ttl h ≠ 0 →
  dst h ≠ ALL_NEIGHBORS → dst h ≠ node_addr →
  forward l3frame len
  = Some [if lpm (dst h) =? 0
          then send_fcmp_response l3frame len FCMP_NO_ROUTE
          else fish_l2_send l3frame (lpm (dst h)) len L2_PROTO_L3].
Proof.
  intros Hread Httl Hall Hdst. unfold my_fish_l3_forward.
  rewrite Hread. simpl.
  destruct (Z.eqb_spec (ttl h) 0); [contradiction|]. simpl.
  destruct (Z.eqb_spec (dst h) ALL_NEIGHBORS); [contradiction|].
  destruct (Z.eqb_spec (dst h) node_addr); [contradiction|].
  destruct (lpm (dst h) =? 0); reflexivity.
Qed.

(* Forwarding calls exactly one primitive, with the frame as it is. *)
Lemma forward_one_event l3frame len h :
  read_L3_hdr l3frame = Some h →
  ∃ e, forward l3frame len = Some [e].
Proof.
  intros Hread. unfold my_fish_l3_forward. rewrite Hread. simpl.
  repeat match goal with
  | |- context [if ?c then _ else _] => destruct c
  end; eauto.
Qed.

Lemma receive_self now1 now2 tbl l3frame len proto h :
  read_L3_hdr l3frame = Some h → dst h = node_addr →
  receive now1 now2 tbl l3frame len proto
  = Some (tbl, l3frame,
          [fish_l4_receive (l4frame_of l3frame) (l4len_of len)
             (protocol h) (src h)]).
Proof.
  intros Hread Hdst. unfold my_fishnode_l3_receive.
  rewrite Hread. simpl. rewrite Hdst, Z.eqb_refl. reflexivity.
Qed.

(* Broadcast, key not found (or expired) in the cache. *)
Lemma receive_broadcast_miss now1 now2 tbl l3frame len proto h :
  read_L3_hdr l3frame = Some h →
  dst h ≠ node_addr → dst h = ALL_NEIGHBORS →
  get_timestamp now1 tbl (src h) (packet_id h) = -1 →
  receive now1 now2 tbl l3frame len proto = Some (tbl, l3frame, []).
Proof.
  intros Hread Hdst Hall Hts. unfold my_fishnode_l3_receive.
  rewrite Hread. simpl.
  destruct (Z.eqb_spec (dst h) node_addr); [contradiction|].
  destruct (Z.eqb_spec (dst h) ALL_NEIGHBORS); [|contradiction].
  rewrite Hts. reflexivity.
Qed.

(* Broadcast, key found in the cache, ttl above 1. *)
Lemma receive_broadcast_hit now1 now2 tbl l3frame len proto h :
  read_L3_hdr l3frame = Some h →
  dst h ≠ node_addr → dst h = ALL_NEIGHBORS →
  get_timestamp now1 tbl (src h) (packet_id h) ≠ -1 →
  1 < ttl h →
  receive now1 now2 tbl l3frame len proto
  = Some (insert_entry now2 tbl (src h) (packet_id h),
          store_ttl l3frame (ttl h - 1),
          [fish_l4_receive (l4frame_of l3frame) (l4len_of len)
             (protocol h) (src h);
           fish_l2_send (store_ttl l3frame (ttl h - 1)) ALL_NEIGHBORS len
             L2_PROTO_L3]).
Proof.
  intros Hread Hdst Hall Hts Httl. unfold my_fishnode_l3_receive.
  rewrite Hread. simpl.
  destruct (Z.eqb_spec (dst h) node_addr); [contradiction|].
  destruct (Z.eqb_spec (dst h) ALL_NEIGHBORS); [|contradiction].
  destruct (Z.eqb_spec (get_timestamp now1 tbl (src h) (packet_id h)) (-1));
    [contradiction|]. simpl.
  destruct (Z.gtb_spec (ttl h) 1); [|lia].
  pose proof (read_L3_hdr_decrement _ _ Hread Httl) as Hread'.
  rewrite Hread'. simpl.
  rewrite (forward_broadcast _ len _ Hread') by (simpl; first [lia|done]).
  simpl. rewrite l4frame_of_store_ttl. reflexivity.
Qed.

(* Broadcast, key found in the cache, ttl 0 or 1. *)
Lemma receive_broadcast_hit_low_ttl now1 now2 tbl l3frame len proto h :
  read_L3_hdr l3frame = Some h →
  dst h ≠ node_addr → dst h = ALL_NEIGHBORS →
  get_timestamp now1 tbl (src h) (packet_id h) ≠ -1 →
  ttl h ≤ 1 →
  receive now1 now2 tbl l3frame len proto
  = Some (insert_entry now2 tbl (src h) (packet_id h), l3frame, []).
Proof.
  intros Hread Hdst Hall Hts Httl. unfold my_fishnode_l3_receive.
  rewrite Hread. simpl.
  destruct (Z.eqb_spec (dst h) node_addr); [contradiction|].
  destruct (Z.eqb_spec (dst h) ALL_NEIGHBORS); [|contradiction].
  destruct (Z.eqb_spec (get_timestamp now1 tbl (src h) (packet_id h)) (-1));
    [contradiction|]. simpl.
  destruct (Z.gtb_spec (ttl h) 1); [lia|reflexivity].
Qed.

(* Neither self nor broadcast, ttl 0 or 1. *)
Lemma receive_other_low_ttl now1 now2 tbl l3frame len proto h :
  read_L3_hdr l3frame = Some h →
  dst h ≠ node_addr → dst h ≠ ALL_NEIGHBORS → ttl h ≤ 1 →
  receive now1 now2 tbl l3frame len proto = Some (tbl, l3frame, []).
Proof.
  intros Hread Hdst Hall Httl. unfold my_fishnode_l3_receive.
  rewrite Hread. simpl.
  destruct (Z.eqb_spec (dst h) node_addr); [contradiction|].
  destruct (Z.eqb_spec (dst h) ALL_NEIGHBORS); [contradiction|].
  destruct (Z.gtb_spec (ttl h) 1); [lia|reflexivity].
Qed.

(* Neither self nor broadcast, ttl above 1. *)
Lemma receive_other now1 now2 tbl l3frame len proto h :
  read_L3_hdr l3frame = Some h →
  dst h ≠ node_addr → dst h ≠ ALL_NEIGHBORS → 1 < ttl h →
  receive now1 now2 tbl l3frame len proto
  = Some (tbl, store_ttl l3frame (ttl h - 1),
          [if lpm (dst h) =? 0
           then send_fcmp_response (store_ttl l3frame (ttl h - 1)) len
                  FCMP_NO_ROUTE
           else fish_l2_send (store_ttl l3frame (ttl h - 1)) (lpm (dst h))
                  len L2_PROTO_L3]).
Proof.
  intros Hread Hdst Hall Httl. unfold my_fishnode_l3_receive.
  rewrite Hread. simpl.
  destruct (Z.eqb_spec (dst h) node_addr); [contradiction|].
  destruct (Z.eqb_spec (dst h) ALL_NEIGHBORS); [contradiction|].
  destruct (Z.gtb_spec (ttl h) 1); [|lia].
  pose proof (read_L3_hdr_decrement _ _ Hread Httl) as Hread'.
  rewrite (forward_unicast _ len _ Hread') by (simpl; first [lia|done]).
  reflexivity.
Qed.

End NodeProperties.

(** ** The cache as the receive callback drives it *)

(* A call of the receive callback on the zeroed table leaves it zeroed:
   insert_entry is reached only after a successful lookup. *)
Lemma receive_keeps_init node lpm now1 now2 l3frame len proto tbl' f' evs :
  my_fishnode_l3_receive node lpm now1 now2 hash_table_init l3frame len proto
  = Some (tbl', f', evs) →
  tbl' = hash_table_init.
Proof.
  unfold my_fishnode_l3_receive.
  destruct (read_L3_hdr l3frame) as [h|]; simpl; [|discriminate].
  rewrite get_timestamp_init. simpl.
  destruct (dst h =? node); [congruence|].
  destruct (dst h =? ALL_NEIGHBORS); [congruence|].
  destruct (ttl h >? 1); [|congruence].
  destruct (my_fish_l3_forward _ _ _ _); simpl; congruence.
Qed.

Lemma receive_all_keeps_init node lpm frames tbl' evs :
  receive_all node lpm hash_table_init frames = Some (tbl', evs) →
  tbl' = hash_table_init.
Proof.
  revert tbl' evs. induction frames as [|r frames IH]; intros tbl' evs; simpl.
  - congruence.
  - destruct (my_fishnode_l3_receive _ _ _ _ _ _ _ _) as [[[t1 f1] e1]|] eqn:Hr;
      simpl; [|discriminate].
    apply receive_keeps_init in Hr. subst t1.
    destruct (receive_all _ _ _ frames) as [[t2 e2]|] eqn:Hrest; simpl;
      [|discriminate].
    intros [= <- _]. eapply IH. reflexivity.
Qed.

(* So a node that starts from the zeroed table never delivers or floods a
   broadcast. *)
Lemma broadcast_dropped_on_init node lpm now1 now2 l3frame len proto h :
  read_L3_hdr l3frame = Some h →
  dst h ≠ node → dst h = ALL_NEIGHBORS →
  my_fishnode_l3_receive node lpm now1 now2 hash_table_init l3frame len proto
  = Some (hash_table_init, l3frame, []).
Proof.
  intros Hread Hdst Hall.
  apply (receive_broadcast_miss _ _ _ _ _ _ _ _ h); auto.
  apply get_timestamp_init.
Qed.

(** * The claims *)

(** ** Broadcast handling *)

(** C1: a broadcast whose (source, packet id) pair is fresh should be
    delivered upward once and flooded when its ttl exceeds 1.  The code does
    neither: the pair (9, 7) is not in the zeroed cache, and the receive
    callback returns with the cache and the frame untouched and no primitive
    called, because the test on the lookup result is [timestamp != -1]. *)
Theorem C1_fresh_broadcast_not_delivered :
  read_L3_hdr bcast_frame = Some bcast_hdr
  ∧ get_timestamp 100 hash_table_init (src bcast_hdr) (packet_id bcast_hdr)
    = -1
  ∧ my_fishnode_l3_receive example_node no_routes 100 100 hash_table_init
      bcast_frame 16 3
    = Some (hash_table_init, bcast_frame, []).
Proof. repeat split; vm_compute; reflexivity. Qed.

(* On a table that holds an entry for the pair, the broadcast is processed:
   with (9, 7) entered at time 100, the same broadcast arriving at time 150
   is handed to [fish_l4_receive] and, its ttl decremented to 4, to
   [fish_l2_send] for all neighbours; the entry is refreshed.  Only a call
   of insert_entry from outside the receive callback makes such a table. *)
Lemma seen_table_broadcast_processed :
  get_timestamp 150 seen_table (src bcast_hdr) (packet_id bcast_hdr) = 100
  ∧ my_fishnode_l3_receive example_node no_routes 150 150 seen_table
      bcast_frame 16 3
    = Some (insert_entry 150 seen_table 9 7,
            store_ttl bcast_frame 4,
            [fish_l4_receive [x61; x62] 2 3 9;
             fish_l2_send (store_ttl bcast_frame 4) ALL_NEIGHBORS 16
               L2_PROTO_L3]).
Proof. split; vm_compute; reflexivity. Qed.

(** C2: on every state of the cache the node reaches by receiving frames
    from the zeroed table, a broadcast whose (source, packet id) pair was
    seen within the last 120 seconds is dropped silently: the callback
    returns with the cache and the frame as they were and calls nothing, so
    there is no upward delivery, no re-flood and no error response. *)
Theorem C2_seen_broadcast_dropped (node : Z) (lpm : Z → Z)
    (frames : list rx) (tbl : list (list HashEntry)) (evs0 : list event)
    (now1 now2 : Z) (l3frame : list byte) (len proto : Z) (h : L3_hdr) :
  node ≠ ALL_NEIGHBORS →
  receive_all node lpm hash_table_init frames = Some (tbl, evs0) →
  read_L3_hdr l3frame = Some h →
  dst h = ALL_NEIGHBORS →
  seen_within frames (src h) (packet_id h) now1 →
  ∃ evs,
    my_fishnode_l3_receive node lpm now1 now2 tbl l3frame len proto
    = Some (tbl, l3frame, evs)
    ∧ evs = []
    ∧ count_events is_l4_receive evs = 0%nat
    ∧ count_events is_l2_send evs = 0%nat
    ∧ count_events is_fcmp_response evs = 0%nat.
Proof.
  intros Hnode Hrun Hread Hall _.
  apply receive_all_keeps_init in Hrun. subst tbl.
  exists []. split; [|repeat split].
  apply (broadcast_dropped_on_init node lpm _ _ _ _ _ h); [done| |done].
  congruence.
Qed.

Lemma C2_seen_broadcast_dropped_witness :
  ∃ evs,
    my_fishnode_l3_receive example_node no_routes 150 150 hash_table_init
      bcast_frame 16 3
    = Some (hash_table_init, bcast_frame, evs)
    ∧ evs = []
    ∧ count_events is_l4_receive evs = 0%nat
    ∧ count_events is_l2_send evs = 0%nat
    ∧ count_events is_fcmp_response evs = 0%nat.
Proof.
  apply (C2_seen_broadcast_dropped example_node no_routes
           [{| rx_now_lookup := 100; rx_now_insert := 100;
               rx_frame := bcast_frame; rx_len := 16; rx_protocol := 3 |}]
           hash_table_init [] 150 150 bcast_frame 16 3 bcast_hdr).
  - vm_compute. discriminate.
  - vm_compute. reflexivity.
  - vm_compute. reflexivity.
  - reflexivity.
  - eexists _, bcast_hdr. split; [apply list_elem_of_singleton; reflexivity|].
    split; [vm_compute; reflexivity|].
    repeat split; vm_compute; discriminate.
Defined.

(** ** Unicast for another node *)

(** C3: a packet for another node that arrives with ttl 0 should produce one
    TTL-exceeded response.  The receive callback forwards only when
    [header->ttl > 1]: at ttl 0 it returns without calling
    [my_fish_l3_forward], the only place that reports an exhausted ttl, so
    no response is sent. *)
Theorem C3_ttl0_unicast_dropped_without_error :
  read_L3_hdr other_ttl0_frame = Some other_ttl0_hdr
  ∧ dst other_ttl0_hdr ≠ example_node
  ∧ dst other_ttl0_hdr ≠ ALL_NEIGHBORS
  ∧ my_fishnode_l3_receive example_node no_routes 100 100 hash_table_init
      other_ttl0_frame 16 3
    = Some (hash_table_init, other_ttl0_frame, [])
  ∧ my_fish_l3_forward example_node no_routes other_ttl0_frame 16
    = Some [send_fcmp_response other_ttl0_frame 16 FCMP_TTL_EXCEEDED].
Proof. repeat split; try discriminate; vm_compute; reflexivity. Qed.

(** C4 as stated fails, in two ways.  Handed a packet for node 12 with ttl 0
    and no route, the forwarding operation reports TTL-exceeded, not
    no-route: the ttl test comes first.  Handed a packet for the node's own
    address 7, which no route covers either, it calls [fish_l2_send]. *)
Lemma C4_counterexample :
  (read_L3_hdr other_ttl0_frame = Some other_ttl0_hdr
   ∧ dst other_ttl0_hdr ≠ ALL_NEIGHBORS
   ∧ no_routes (dst other_ttl0_hdr) = 0
   ∧ my_fish_l3_forward example_node no_routes other_ttl0_frame 16
     = Some [send_fcmp_response other_ttl0_frame 16 FCMP_TTL_EXCEEDED]
   ∧ count_events (is_fcmp_error FCMP_NO_ROUTE)
       [send_fcmp_response other_ttl0_frame 16 FCMP_TTL_EXCEEDED] ≠ 1%nat)
  ∧ (read_L3_hdr self_frame = Some self_hdr
     ∧ dst self_hdr ≠ ALL_NEIGHBORS
     ∧ no_routes (dst self_hdr) = 0
     ∧ my_fish_l3_forward example_node no_routes self_frame 16
       = Some [fish_l2_send self_frame example_node 16 L2_PROTO_L3]
     ∧ count_events is_l2_send
         [fish_l2_send self_frame example_node 16 L2_PROTO_L3] ≠ 0%nat).
Proof. repeat split; try discriminate; vm_compute; reflexivity. Qed.

(** C4, amended: for a packet handed to the forwarding operation with a
    non-zero ttl and a destination that is neither the node's own address
    nor the broadcast address, if [longest_prefix_match] returns 0 (no
    route), then [fish_l2_send] is not called and [send_fcmp_response] is
    called exactly once, on that frame, with the no-route code. *)
Theorem C4_no_route_reported (node : Z) (lpm : Z → Z)
    (l3frame : list byte) (len : Z) (h : L3_hdr) :
  read_L3_hdr l3frame = Some h →
  ttl h ≠ 0 → dst h ≠ node → dst h ≠ ALL_NEIGHBORS →
  lpm (dst h) = 0 →
  ∃ evs,
    my_fish_l3_forward node lpm l3frame len = Some evs
    ∧ evs = [send_fcmp_response l3frame len FCMP_NO_ROUTE]
    ∧ count_events is_l2_send evs = 0%nat
    ∧ count_events (is_fcmp_error FCMP_NO_ROUTE) evs = 1%nat
    ∧ count_events is_fcmp_response evs = 1%nat.
Proof.
  intros Hread Httl Hself Hall Hlpm.
  eexists. split.
  - rewrite (forward_unicast node lpm l3frame len h) by assumption.
    rewrite Hlpm. reflexivity.
  - repeat split; reflexivity.
Qed.

Lemma C4_no_route_reported_witness :
  ∃ evs,
    my_fish_l3_forward example_node no_routes other_frame 16 = Some evs
    ∧ evs = [send_fcmp_response other_frame 16 FCMP_NO_ROUTE]
    ∧ count_events is_l2_send evs = 0%nat
    ∧ count_events (is_fcmp_error FCMP_NO_ROUTE) evs = 1%nat
    ∧ count_events is_fcmp_response evs = 1%nat.
Proof.
  apply (C4_no_route_reported example_node no_routes other_frame 16 other_hdr).
  - vm_compute; reflexivity.
  - simpl; lia.
  - vm_compute; discriminate.
  - vm_compute; discriminate.
  - reflexivity.
Defined.

(** ** Frames shorter than the header *)

(** C5 as stated fails: the receive callback never looks at [len] before
    it classifies the frame.  A frame for node 7 announced with length 5,
    shorter than the 14-byte header, is handed to [fish_l4_receive], with
    the length 5 - 14 = -9. *)
Lemma C5_counterexample :
  5 < Z.of_nat sizeof_L3_hdr
  ∧ read_L3_hdr self_frame = Some self_hdr
  ∧ my_fishnode_l3_receive example_node no_routes 100 100 hash_table_init
      self_frame 5 3
    = Some (hash_table_init, self_frame, [fish_l4_receive [x61; x62] (-9) 3 9])
  ∧ count_events is_l4_receive [fish_l4_receive [x61; x62] (-9) 3 9] ≠ 0%nat.
Proof. repeat split; try discriminate; vm_compute; reflexivity. Qed.

(* When the callback calls nothing, whatever the length: the destination is
   not the node's own address and either the frame is a broadcast whose
   pair the cache lookup does not find or whose ttl is at most 1, or it is
   for another node and its ttl is at most 1. *)
Lemma receive_silent_iff (node : Z) (lpm : Z → Z)
    (now1 now2 : Z) (tbl : list (list HashEntry)) (l3frame : list byte)
    (len proto : Z) (h : L3_hdr) :
  read_L3_hdr l3frame = Some h →
  ∃ tbl' l3frame' evs,
    my_fishnode_l3_receive node lpm now1 now2 tbl l3frame len proto
    = Some (tbl', l3frame', evs)
    ∧ (evs = [] ↔
       dst h ≠ node
       ∧ if dst h =? ALL_NEIGHBORS
         then get_timestamp now1 tbl (src h) (packet_id h) = -1 ∨ ttl h ≤ 1
         else ttl h ≤ 1).
Proof.
  intros Hread.
  destruct (Z.eq_dec (dst h) node) as [Hself|Hself].
  { rewrite (receive_self node lpm _ _ _ _ _ _ h) by assumption.
    do 3 eexists. split; [reflexivity|]. split; [discriminate|tauto]. }
  destruct (Z.eqb_spec (dst h) ALL_NEIGHBORS) as [Hall|Hall].
  - destruct (Z.eq_dec (get_timestamp now1 tbl (src h) (packet_id h)) (-1))
      as [Hts|Hts].
    { rewrite (receive_broadcast_miss node lpm _ _ _ _ _ _ h) by assumption.
      do 3 eexists. split; [reflexivity|]. tauto. }
    destruct (Z_le_gt_dec (ttl h) 1) as [Httl|Httl].
    + rewrite (receive_broadcast_hit_low_ttl node lpm _ _ _ _ _ _ h)
        by assumption.
      do 3 eexists. split; [reflexivity|]. tauto.
    + rewrite (receive_broadcast_hit node lpm _ _ _ _ _ _ h)
        by first [assumption|lia].
      do 3 eexists. split; [reflexivity|].
      split; [discriminate|]. intros [_ [?|?]]; [contradiction|lia].
  - destruct (Z_le_gt_dec (ttl h) 1) as [Httl|Httl].
    + rewrite (receive_other_low_ttl node lpm _ _ _ _ _ _ h) by assumption.
      do 3 eexists. split; [reflexivity|]. tauto.
    + rewrite (receive_other node lpm _ _ _ _ _ _ h)
        by first [assumption|lia].
      do 3 eexists. split; [reflexivity|].
      split; [discriminate|]. intros [_ ?]; lia.
Qed.

Lemma receive_silent_iff_witness :
  ∃ tbl' l3frame' evs,
    my_fishnode_l3_receive example_node no_routes 100 100 hash_table_init
      other_ttl0_frame 5 3
    = Some (tbl', l3frame', evs)
    ∧ (evs = [] ↔
       dst other_ttl0_hdr ≠ example_node
       ∧ if dst other_ttl0_hdr =? ALL_NEIGHBORS
         then get_timestamp 100 hash_table_init (src other_ttl0_hdr)
                (packet_id other_ttl0_hdr) = -1 ∨ ttl other_ttl0_hdr ≤ 1
         else ttl other_ttl0_hdr ≤ 1).
Proof.
  apply (receive_silent_iff example_node no_routes 100 100
           hash_table_init other_ttl0_frame 5 3 other_ttl0_hdr).
  vm_compute; reflexivity.
Defined.

(** C5, amended: an inbound frame shorter than the fixed header is not
    dropped for being short: the receive callback never compares [len] with
    the header size.  It handles the frame as it handles a frame of any
    other length with the same header bytes: the cache and the frame on
    return are the same and the same primitives are called in the same
    order, on the same data, only their length arguments differ.  So a
    short frame addressed to the node itself is delivered upward once, with
    the length len - 14. *)
Theorem C5_short_frame_not_dropped (node : Z) (lpm : Z → Z) (now1 now2 : Z)
    (tbl : list (list HashEntry)) (l3frame : list byte) (len proto : Z)
    (h : L3_hdr) :
  read_L3_hdr l3frame = Some h →
  0 ≤ len < Z.of_nat sizeof_L3_hdr →
  ∃ tbl' l3frame' evs,
    my_fishnode_l3_receive node lpm now1 now2 tbl l3frame len proto
    = Some (tbl', l3frame', evs)
    ∧ (∀ len', ∃ evs',
         my_fishnode_l3_receive node lpm now1 now2 tbl l3frame len' proto
         = Some (tbl', l3frame', evs')
         ∧ forget_len <$> evs' = forget_len <$> evs)
    ∧ (dst h = node →
       tbl' = tbl ∧ l3frame' = l3frame
       ∧ evs = [fish_l4_receive (l4frame_of l3frame)
                  (len - Z.of_nat sizeof_L3_hdr) (protocol h) (src h)]).
Proof.
  intros Hread Hlen.
  destruct (Z.eq_dec (dst h) node) as [Hself|Hself].
  { rewrite (receive_self node lpm _ _ _ _ _ _ h Hread Hself).
    do 3 eexists. split; [reflexivity|]. split.
    - intros len'. eexists. split; [by apply receive_self|reflexivity].
    - intros _. repeat split. do 2 f_equal.
      unfold l4len_of, to_int, to_size_t.
      change (Z.of_nat sizeof_L3_hdr) with 14 in *.
      change (2 ^ 31) with 2147483648. change (2 ^ 32) with 4294967296.
      change (2 ^ 64) with 18446744073709551616.
      Z.div_mod_to_equations. lia. }
  destruct (Z.eq_dec (dst h) ALL_NEIGHBORS) as [Hall|Hall].
  - destruct (Z.eq_dec (get_timestamp now1 tbl (src h) (packet_id h)) (-1))
      as [Hts|Hts].
    { rewrite (receive_broadcast_miss node lpm _ _ _ _ _ _ h) by assumption.
      do 3 eexists. split; [reflexivity|]. split; [|done].
      intros len'. eexists.
      split; [by apply (receive_broadcast_miss node lpm _ _ _ _ _ _ h)|].
      reflexivity. }
    destruct (Z_le_gt_dec (ttl h) 1) as [Httl|Httl].
    + rewrite (receive_broadcast_hit_low_ttl node lpm _ _ _ _ _ _ h)
        by assumption.
      do 3 eexists. split; [reflexivity|]. split; [|done].
      intros len'. eexists.
      split;
        [by apply (receive_broadcast_hit_low_ttl node lpm _ _ _ _ _ _ h)|].
      reflexivity.
    + apply Z.gt_lt in Httl.
      rewrite (receive_broadcast_hit node lpm _ _ _ _ _ _ h) by assumption.
      do 3 eexists. split; [reflexivity|]. split; [|done].
      intros len'. eexists.
      split; [by apply (receive_broadcast_hit node lpm _ _ _ _ _ _ h)|].
      reflexivity.
  - destruct (Z_le_gt_dec (ttl h) 1) as [Httl|Httl].
    + rewrite (receive_other_low_ttl node lpm _ _ _ _ _ _ h) by assumption.
      do 3 eexists. split; [reflexivity|]. split; [|done].
      intros len'. eexists.
      split; [by apply (receive_other_low_ttl node lpm _ _ _ _ _ _ h)|].
      reflexivity.
    + apply Z.gt_lt in Httl.
      rewrite (receive_other node lpm _ _ _ _ _ _ h) by assumption.
      do 3 eexists. split; [reflexivity|]. split; [|done].
      intros len'. eexists.
      split; [by apply (receive_other node lpm _ _ _ _ _ _ h)|].
      destruct (lpm (dst h) =? 0); reflexivity.
Qed.

Lemma C5_short_frame_not_dropped_witness :
  ∃ tbl' l3frame' evs,
    my_fishnode_l3_receive example_node no_routes 100 100 hash_table_init
      self_frame 5 3
    = Some (tbl', l3frame', evs)
    ∧ (∀ len', ∃ evs',
         my_fishnode_l3_receive example_node no_routes 100 100
           hash_table_init self_frame len' 3
         = Some (tbl', l3frame', evs')
         ∧ forget_len <$> evs' = forget_len <$> evs)
    ∧ (dst self_hdr = example_node →
       tbl' = hash_table_init ∧ l3frame' = self_frame
       ∧ evs = [fish_l4_receive (l4frame_of self_frame)
                  (5 - Z.of_nat sizeof_L3_hdr) (protocol self_hdr)
                  (src self_hdr)]).
Proof.
  apply (C5_short_frame_not_dropped example_node no_routes 100 100
           hash_table_init self_frame 5 3 self_hdr).
  - vm_compute. reflexivity.
  - vm_compute. split; [discriminate|reflexivity].
Defined.

(** ** Expiry of cache entries *)

(** C6 as stated fails: an entry made at time 100 and looked up at time
    220, exactly 120 seconds later, is found; the lookup returns its
    timestamp, not -1. *)
Lemma C6_counterexample :
  220 - 100 = ENTRY_TTL_SECONDS
  ∧ get_timestamp 220 (insert_entry 100 hash_table_init 9 7) 9 7 = 100
  ∧ get_timestamp 220 (insert_entry 100 hash_table_init 9 7) 9 7 ≠ -1.
Proof. repeat split; try discriminate; vm_compute; reflexivity. Qed.

(** C6, amended: an entry exactly 120 seconds old is still found, the lookup
    returns its timestamp; the entry is treated as absent (the lookup
    returns -1) once it is more than 120 seconds old, that is from 121
    seconds on. *)
Theorem C6_entry_expires_after_120 (tbl : list (list HashEntry))
    (t s i : Z) :
  length tbl = Z.to_nat HASH_TABLE_SIZE →
  get_timestamp (t + 120) (insert_entry t tbl s i) s i = t
  ∧ get_timestamp (t + 121) (insert_entry t tbl s i) s i = -1
  ∧ ∀ now,
      get_timestamp now (insert_entry t tbl s i) s i
      = if now - t >? ENTRY_TTL_SECONDS then -1 else t.
Proof.
  intros Hlen.
  rewrite !get_timestamp_insert_entry by exact Hlen.
  replace (t + 120 - t) with 120 by lia.
  replace (t + 121 - t) with 121 by lia.
  repeat split. intros now. apply get_timestamp_insert_entry, Hlen.
Qed.

Lemma C6_entry_expires_after_120_witness :
  get_timestamp (100 + 120) (insert_entry 100 hash_table_init 9 7) 9 7 = 100
  ∧ get_timestamp (100 + 121) (insert_entry 100 hash_table_init 9 7) 9 7 = -1
  ∧ ∀ now,
      get_timestamp now (insert_entry 100 hash_table_init 9 7) 9 7
      = if now - 100 >? ENTRY_TTL_SECONDS then -1 else 100.
Proof.
  apply (C6_entry_expires_after_120 hash_table_init 100 9 7).
  reflexivity.
Defined.

(** ** Packets for the node itself *)

(** C7 as stated fails: handed a frame whose destination is the node's own
    address 7, the forwarding operation calls [fish_l2_send], with the
    node's own address as next hop. *)
Lemma C7_counterexample :
  read_L3_hdr self_frame = Some self_hdr
  ∧ dst self_hdr = example_node
  ∧ my_fish_l3_forward example_node no_routes self_frame 16
    = Some [fish_l2_send self_frame example_node 16 L2_PROTO_L3]
  ∧ count_events is_l2_send
      [fish_l2_send self_frame example_node 16 L2_PROTO_L3] ≠ 0%nat.
Proof. repeat split; try discriminate; vm_compute; reflexivity. Qed.

(** C7, amended: the receive callback never forwards a frame whose
    destination is the node's own address, it only delivers it upward.  The
    forwarding operation itself does not exclude that destination: it
    takes the node's own address as next hop, whatever the forwarding table
    and the ttl say, and calls [fish_l2_send] once with it when that
    address is non-zero (a zero address is reported as no route). *)
Theorem C7_self_destination (node : Z) (lpm : Z → Z) (l3frame : list byte)
    (len : Z) (h : L3_hdr) :
  read_L3_hdr l3frame = Some h →
  dst h = node →
  (∀ now1 now2 tbl proto,
     my_fishnode_l3_receive node lpm now1 now2 tbl l3frame len proto
     = Some (tbl, l3frame,
             [fish_l4_receive (l4frame_of l3frame) (l4len_of len)
                (protocol h) (src h)]))
  ∧ (node ≠ 0 →
     my_fish_l3_forward node lpm l3frame len
     = Some [fish_l2_send l3frame node len L2_PROTO_L3])
  ∧ (node = 0 →
     my_fish_l3_forward node lpm l3frame len
     = Some [send_fcmp_response l3frame len FCMP_NO_ROUTE]).
Proof.
  intros Hread Hdst. split; [|split].
  - intros now1 now2 tbl proto. apply receive_self; assumption.
  - intros Hnz. rewrite (forward_self node lpm l3frame len h) by assumption.
    destruct (Z.eqb_spec node 0); [contradiction|reflexivity].
  - intros Hz. rewrite (forward_self node lpm l3frame len h) by assumption.
    destruct (Z.eqb_spec node 0); [reflexivity|contradiction].
Qed.

Lemma C7_self_destination_witness :
  (∀ now1 now2 tbl proto,
     my_fishnode_l3_receive example_node no_routes now1 now2 tbl self_frame
       16 proto
     = Some (tbl, self_frame,
             [fish_l4_receive (l4frame_of self_frame) (l4len_of 16)
                (protocol self_hdr) (src self_hdr)]))
  ∧ (example_node ≠ 0 →
     my_fish_l3_forward example_node no_routes self_frame 16
     = Some [fish_l2_send self_frame example_node 16 L2_PROTO_L3])
  ∧ (example_node = 0 →
     my_fish_l3_forward example_node no_routes self_frame 16
     = Some [send_fcmp_response self_frame 16 FCMP_NO_ROUTE]).
Proof.
  apply (C7_self_destination example_node no_routes self_frame 16 self_hdr).
  - vm_compute; reflexivity.
  - reflexivity.
Defined.

(** ** The frame buffer *)

(* The buffer on return is the buffer on entry, or that buffer after the
   one store [header->ttl--]; every primitive called saw the buffer as it
   is on return. *)
Lemma receive_outcome node lpm now1 now2 tbl l3frame len proto h :
  read_L3_hdr l3frame = Some h →
  ∃ tbl' l3frame' evs,
    my_fishnode_l3_receive node lpm now1 now2 tbl l3frame len proto
    = Some (tbl', l3frame', evs)
    ∧ (l3frame' = l3frame
       ∨ 1 < ttl h ∧ l3frame' = store_ttl l3frame (ttl h - 1))
    ∧ Forall (event_sees l3frame') evs.
Proof.
  intros Hread.
  destruct (Z.eq_dec (dst h) node) as [Hself|Hself].
  { rewrite (receive_self node lpm _ _ _ _ _ _ h) by assumption.
    do 3 eexists. split; [reflexivity|]. split; [by left|].
    repeat constructor. }
  destruct (Z.eq_dec (dst h) ALL_NEIGHBORS) as [Hall|Hall].
  - destruct (Z.eq_dec (get_timestamp now1 tbl (src h) (packet_id h)) (-1))
      as [Hts|Hts].
    { rewrite (receive_broadcast_miss node lpm _ _ _ _ _ _ h) by assumption.
      do 3 eexists. split; [reflexivity|]. split; [by left|constructor]. }
    destruct (Z_le_gt_dec (ttl h) 1) as [Httl|Httl].
    + rewrite (receive_broadcast_hit_low_ttl node lpm _ _ _ _ _ _ h)
        by assumption.
      do 3 eexists. split; [reflexivity|]. split; [by left|constructor].
    + rewrite (receive_broadcast_hit node lpm _ _ _ _ _ _ h)
        by first [assumption|lia].
      do 3 eexists. split; [reflexivity|].
      split; [right; split; [lia|reflexivity]|].
      repeat constructor. simpl. symmetry. apply l4frame_of_store_ttl.
  - destruct (Z_le_gt_dec (ttl h) 1) as [Httl|Httl].
    + rewrite (receive_other_low_ttl node lpm _ _ _ _ _ _ h) by assumption.
      do 3 eexists. split; [reflexivity|]. split; [by left|constructor].
    + rewrite (receive_other node lpm _ _ _ _ _ _ h)
        by first [assumption|lia].
      do 3 eexists. split; [reflexivity|].
      split; [right; split; [lia|reflexivity]|].
      destruct (lpm (dst h) =? 0); repeat constructor.
Qed.

(** C8: for every inbound frame (whose header bytes are there to read), the
    receive callback returns, and on return the buffer has its length, every
    byte other than the one of the ttl member is what it was, so the
    protocol, packet id, source and destination members and the whole
    payload are unchanged; the forwarding operation stores nothing: each
    primitive called was handed the buffer as it is on return. *)
Theorem C8_only_ttl_mutated (node : Z) (lpm : Z → Z) (now1 now2 : Z)
    (tbl : list (list HashEntry)) (l3frame : list byte) (len proto : Z) :
  (sizeof_L3_hdr ≤ length l3frame)%nat →
  ∃ tbl' l3frame' evs h h',
    my_fishnode_l3_receive node lpm now1 now2 tbl l3frame len proto
    = Some (tbl', l3frame', evs)
    ∧ length l3frame' = length l3frame
    ∧ (∀ i : nat, i ≠ offsetof f_ttl → l3frame' !! i = l3frame !! i)
    ∧ read_L3_hdr l3frame = Some h
    ∧ read_L3_hdr l3frame' = Some h'
    ∧ protocol h' = protocol h ∧ packet_id h' = packet_id h
    ∧ src h' = src h ∧ dst h' = dst h
    ∧ l4frame_of l3frame' = l4frame_of l3frame
    ∧ Forall (event_sees l3frame') evs.
Proof.
  intros Hlen. apply read_L3_hdr_is_Some in Hlen as [h Hread].
  destruct (receive_outcome node lpm now1 now2 tbl l3frame len proto h Hread)
    as (tbl' & f' & evs & Hrecv & [->|[Httl ->]] & Hsees).
  - exists tbl', l3frame, evs, h, h. repeat split; auto.
  - pose proof (read_L3_hdr_decrement _ _ Hread Httl) as Hread'.
    eexists tbl', _, evs, h, _.
    split; [exact Hrecv|]. split; [apply store_ttl_length|].
    split; [intros i Hi; apply store_ttl_lookup_ne, Hi|].
    split; [exact Hread|]. split; [exact Hread'|].
    repeat split; auto using l4frame_of_store_ttl.
Qed.

Lemma C8_only_ttl_mutated_witness :
  ∃ tbl' l3frame' evs h h',
    my_fishnode_l3_receive example_node no_routes 150 150 seen_table
      bcast_frame 16 3
    = Some (tbl', l3frame', evs)
    ∧ length l3frame' = length bcast_frame
    ∧ (∀ i : nat, i ≠ offsetof f_ttl → l3frame' !! i = bcast_frame !! i)
    ∧ read_L3_hdr bcast_frame = Some h
    ∧ read_L3_hdr l3frame' = Some h'
    ∧ protocol h' = protocol h ∧ packet_id h' = packet_id h
    ∧ src h' = src h ∧ dst h' = dst h
    ∧ l4frame_of l3frame' = l4frame_of bcast_frame
    ∧ Forall (event_sees l3frame') evs.
Proof.
  apply (C8_only_ttl_mutated example_node no_routes 150 150 seen_table
           bcast_frame 16 3).
  vm_compute. lia.
Defined.

(** ** The header layout *)

(** C9 as stated fails: the header is not 10 bytes long. *)
Lemma C9_counterexample : sizeof_L3_hdr ≠ 10%nat.
Proof. vm_compute. discriminate. Qed.

(** C9, amended: the fixed header occupies exactly 14 bytes preceding the
    upper-layer payload, laid out as ttl: 1 byte, protocol: 1 byte,
    packet_id: 4 bytes, source: 4 bytes, destination: 4 bytes, in that
    order (offsets 0, 1, 2, 6 and 10). *)
Theorem C9_header_layout :
  L3_hdr_fields = [f_ttl; f_protocol; f_packet_id; f_src; f_dst]
  ∧ field_size <$> L3_hdr_fields = [1; 1; 4; 4; 4]%nat
  ∧ offsetof <$> L3_hdr_fields = [0; 1; 2; 6; 10]%nat
  ∧ sizeof_L3_hdr = 14%nat
  ∧ (∀ l3frame, l4frame_of l3frame = drop 14 l3frame)
  ∧ (∀ len, l4len_of len = to_int (to_size_t (len - 14)))
  ∧ (∀ h payload,
       length (mk_frame h payload) = (14 + length payload)%nat
       ∧ l4frame_of (mk_frame h payload) = payload).
Proof. repeat split. Qed.

(** * Further properties of the code *)

(** ** The two loops over a chain *)

Lemma same_key_true (s i : Z) (e : HashEntry) :
  same_key s i e = true ↔ entry_key e = (s, i).
Proof.
  unfold same_key, entry_key. rewrite andb_true_iff, !Z.eqb_eq.
  split; [intros [-> ->]; reflexivity|intros [= -> ->]; auto].
Qed.

Lemma same_key_false (s i : Z) (e : HashEntry) :
  same_key s i e = false ↔ entry_key e ≠ (s, i).
Proof.
  rewrite <- same_key_true. destruct (same_key s i e); split; congruence.
Qed.

Lemma find_entry_None_iff (s i : Z) (c : list HashEntry) :
  find_entry s i c = None ↔ (s, i) ∉ entry_key <$> c.
Proof.
  induction c as [|e c IH]; simpl.
  - split; [intros _; apply not_elem_of_nil|reflexivity].
  - rewrite not_elem_of_cons. destruct (same_key s i e) eqn:He.
    + apply same_key_true in He. split; [discriminate|].
      intros [Hne _]. congruence.
    + apply same_key_false in He. rewrite IH. split; [|tauto].
      intros Hc. split; [congruence|exact Hc].
Qed.

Lemma find_entry_Some (s i : Z) (c : list HashEntry) (e : HashEntry) :
  find_entry s i c = Some e → e ∈ c ∧ entry_key e = (s, i).
Proof.
  induction c as [|e' c IH]; simpl; [discriminate|].
  destruct (same_key s i e') eqn:He.
  - intros [= <-]. split; [left|by apply same_key_true].
  - intros Hf. destruct (IH Hf) as [Hin Hk]. split; [by right|exact Hk].
Qed.

Lemma replace_entry_keys (s i : Z) (n : HashEntry) (c c' : list HashEntry) :
  entry_key n = (s, i) →
  replace_entry s i n c = Some c' →
  entry_key <$> c' = entry_key <$> c ∧ length c' = length c.
Proof.
  intros Hn. revert c'. induction c as [|e c IH]; intros c';
    cbn [replace_entry]; [discriminate|].
  destruct (same_key s i e) eqn:He.
  - apply same_key_true in He. intros [= <-]. rewrite !fmap_cons, Hn, He.
    split; reflexivity.
  - destruct (replace_entry s i n c) as [c1|]; cbn; [|discriminate].
    intros [= <-]. destruct (IH c1 eq_refl) as [Hk Hl].
    rewrite !fmap_cons, Hk. cbn. split; congruence.
Qed.

Lemma replace_entry_Forall (P : HashEntry → Prop) (s i : Z) (n : HashEntry)
    (c c' : list HashEntry) :
  P n → Forall P c → replace_entry s i n c = Some c' → Forall P c'.
Proof.
  intros Hn Hc. revert c'. induction Hc as [|e c He Hc IH]; intros c'; simpl;
    [discriminate|].
  destruct (same_key s i e).
  - intros [= <-]. by constructor.
  - destruct (replace_entry s i n c) as [c1|]; simpl; [|discriminate].
    intros [= <-]. constructor; [exact He|by apply IH].
Qed.

(* Replacing the entry of one key leaves the search for another key as it
   was. *)
Lemma replace_entry_other (s i s' i' : Z) (n : HashEntry)
    (c c' : list HashEntry) :
  (s', i') ≠ (s, i) → entry_key n = (s, i) →
  replace_entry s i n c = Some c' →
  find_entry s' i' c' = find_entry s' i' c.
Proof.
  intros Hne Hn. revert c'. induction c as [|e c IH]; intros c'; simpl;
    [discriminate|].
  destruct (same_key s i e) eqn:He.
  - apply same_key_true in He. intros [= <-]. simpl.
    assert (same_key s' i' n = false) as -> by (apply same_key_false; congruence).
    assert (same_key s' i' e = false) as -> by (apply same_key_false; congruence).
    reflexivity.
  - destruct (replace_entry s i n c) as [c1|]; simpl; [|discriminate].
    intros [= <-]. simpl. rewrite (IH c1 eq_refl). reflexivity.
Qed.

Lemma replace_entry_twice (s i : Z) (n1 n2 : HashEntry)
    (c c1 : list HashEntry) :
  entry_key n1 = (s, i) →
  replace_entry s i n1 c = Some c1 →
  replace_entry s i n2 c1 = replace_entry s i n2 c.
Proof.
  intros Hn. revert c1. induction c as [|e c IH]; intros c1; simpl;
    [discriminate|].
  destruct (same_key s i e) eqn:He.
  - intros [= <-]. simpl.
    assert (same_key s i n1 = true) as -> by (by apply same_key_true).
    reflexivity.
  - destruct (replace_entry s i n1 c) as [c2|]; simpl; [|discriminate].
    intros [= <-]. simpl. rewrite He, (IH c2 eq_refl). reflexivity.
Qed.

(** ** insert_entry as one update of one bucket *)

Lemma insert_entry_eq (now : Z) (tbl : list (list HashEntry)) (s i : Z) :
  insert_entry now tbl s i
  = <[Z.to_nat (hash_function s (to_uint16 i)) :=
        default
          ({| e_src := s; e_packet_id := to_uint16 i; e_timestamp := now |}
           :: bucket tbl (Z.to_nat (hash_function s (to_uint16 i))))
          (replace_entry s (to_uint16 i)
             {| e_src := s; e_packet_id := to_uint16 i; e_timestamp := now |}
             (bucket tbl (Z.to_nat (hash_function s (to_uint16 i)))))]> tbl.
Proof.
  unfold insert_entry.
  destruct (bucket tbl _) as [|e c]; [reflexivity|].
  destruct (replace_entry _ _ _ (e :: c)); reflexivity.
Qed.

Lemma bucket_lookup (tbl : list (list HashEntry)) (index : nat) :
  (index < length tbl)%nat → tbl !! index = Some (bucket tbl index).
Proof.
  intros Hlt. unfold bucket.
  destruct (lookup_lt_is_Some_2 tbl index Hlt) as [c Hc]. rewrite Hc.
  reflexivity.
Qed.

Lemma bucket_insert_ne (tbl : list (list HashEntry)) (k k' : nat)
    (c : list HashEntry) :
  k ≠ k' → bucket (<[k := c]> tbl) k' = bucket tbl k'.
Proof.
  intros Hne. unfold bucket. rewrite list_lookup_insert_ne by exact Hne.
  reflexivity.
Qed.

Lemma cache_size_insert (tbl : list (list HashEntry)) (k : nat)
    (c c' : list HashEntry) :
  tbl !! k = Some c →
  (cache_size (<[k := c']> tbl) + length c
   = cache_size tbl + length c')%nat.
Proof.
  unfold cache_size. revert k.
  induction tbl as [|b tbl IH]; intros k; [discriminate|].
  destruct k as [|k]; cbn.
  - intros [= ->]. lia.
  - intros Hk. rewrite <- !Nat.add_assoc. f_equal. exact (IH k Hk).
Qed.

(* A successful lookup tells that the key has an entry in its bucket. *)
Lemma get_timestamp_found (now : Z) (tbl : list (list HashEntry)) (s i : Z) :
  get_timestamp now tbl s i ≠ -1 →
  ∃ e, find_entry s (to_uint16 i)
         (bucket tbl (Z.to_nat (hash_function s (to_uint16 i)))) = Some e.
Proof.
  unfold get_timestamp.
  destruct (find_entry _ _ _) as [e|]; [eauto|congruence].
Qed.

Lemma find_entry_NoDup (c : list HashEntry) (e : HashEntry) :
  NoDup (entry_key <$> c) → e ∈ c →
  find_entry (e_src e) (e_packet_id e) c = Some e.
Proof.
  induction c as [|e' c IH]; [intros _ Hin; by apply elem_of_nil in Hin|].
  rewrite fmap_cons, NoDup_cons, elem_of_cons. intros [Hnin Hnd] Hin.
  cbn [find_entry].
  destruct (same_key (e_src e) (e_packet_id e) e') eqn:He'.
  - destruct Hin as [->|Hin]; [reflexivity|].
    apply same_key_true in He'. exfalso. apply Hnin.
    apply list_elem_of_fmap. exists e. split; [|exact Hin].
    rewrite He'. reflexivity.
  - destruct Hin as [->|Hin]; [|by apply IH].
    apply same_key_false in He'. by destruct He'.
Qed.

Lemma cache_ok_init : cache_ok hash_table_init.
Proof.
  split; [apply length_replicate|].
  intros index c Hc. apply lookup_replicate in Hc as [-> _].
  split; [rewrite fmap_nil; constructor|constructor].
Qed.

(** ** The duplicate cache, beyond the claims *)

(** X1: an insertion changes only the answer for its own key: the lookup of
    any pair with another source, or another packet id modulo 2^16, returns
    after the insertion what it returned before. *)
Theorem insert_entry_other_key (now t : Z) (tbl : list (list HashEntry))
    (s i s' i' : Z) :
  (s', to_uint16 i') ≠ (s, to_uint16 i) →
  get_timestamp now (insert_entry t tbl s i) s' i'
  = get_timestamp now tbl s' i'.
Proof.
  intros Hne. unfold get_timestamp.
  enough (find_entry s' (to_uint16 i')
            (bucket (insert_entry t tbl s i)
               (Z.to_nat (hash_function s' (to_uint16 i'))))
          = find_entry s' (to_uint16 i')
              (bucket tbl (Z.to_nat (hash_function s' (to_uint16 i')))))
    as -> by reflexivity.
  rewrite insert_entry_eq.
  set (k := Z.to_nat (hash_function s (to_uint16 i))).
  set (k' := Z.to_nat (hash_function s' (to_uint16 i'))).
  set (n := {| e_src := s; e_packet_id := to_uint16 i; e_timestamp := t |}).
  destruct (decide (k = k')) as [<-|Hk]; [|by rewrite bucket_insert_ne].
  destruct (decide (k < length tbl)%nat) as [Hlt|Hge];
    [|by rewrite list_insert_ge by lia].
  rewrite bucket_insert_eq by exact Hlt.
  destruct (replace_entry s (to_uint16 i) n (bucket tbl k)) as [c'|] eqn:Hrep;
    cbn [default from_option id].
  - by apply (replace_entry_other s (to_uint16 i) _ _ n).
  - cbn [find_entry].
    assert (same_key s' (to_uint16 i') n = false) as ->; [|reflexivity].
    apply same_key_false. unfold entry_key. simpl. congruence.
Qed.

Lemma insert_entry_other_key_witness :
  get_timestamp 150 (insert_entry 120 seen_table 9 8) 9 7
  = get_timestamp 150 seen_table 9 7.
Proof.
  apply (insert_entry_other_key 150 120 seen_table 9 8 9 7).
  vm_compute. discriminate.
Defined.

(* The loop of insert_entry overwrites the first entry that has the key,
   where it stands. *)
Lemma replace_entry_list_find (s i : Z) (n : HashEntry) (c : list HashEntry) :
  replace_entry s i n c
  = (λ kx : nat * HashEntry, <[kx.1 := n]> c)
      <$> list_find (λ e, entry_key e = (s, i)) c.
Proof.
  induction c as [|e c IH]; [reflexivity|].
  cbn [replace_entry list_find].
  destruct (decide (entry_key e = (s, i))) as [He|He].
  - apply same_key_true in He. rewrite He. reflexivity.
  - apply same_key_false in He. rewrite He, IH.
    destruct (list_find _ c) as [[k x]|]; reflexivity.
Qed.

(** X2: an insertion for a key that has an entry in its bucket overwrites
    that entry in place and allocates nothing more: the first entry with the
    key is replaced where it stands in the chain, every other entry and
    their order are kept, every other bucket is untouched and the number of
    entries is the same.  An insertion for a key without an entry puts the
    new entry at the head of the chain and adds exactly one entry.  No call
    removes an entry, so the number of entries never goes down. *)
Theorem insert_entry_in_place (now : Z) (tbl : list (list HashEntry))
    (s i : Z) :
  length tbl = Z.to_nat HASH_TABLE_SIZE →
  let index := Z.to_nat (hash_function s (i mod 2 ^ 16)) in
  let new_entry :=
    {| e_src := s; e_packet_id := i mod 2 ^ 16; e_timestamp := now |} in
  match list_find (λ e, entry_key e = (s, i mod 2 ^ 16))
          (bucket tbl index) with
  | Some (k, _) =>
      insert_entry now tbl s i
      = <[index := <[k := new_entry]> (bucket tbl index)]> tbl
      ∧ cache_size (insert_entry now tbl s i) = cache_size tbl
  | None =>
      insert_entry now tbl s i
      = <[index := new_entry :: bucket tbl index]> tbl
      ∧ cache_size (insert_entry now tbl s i) = S (cache_size tbl)
  end.
Proof.
  intros Hlen. cbv zeta. fold (to_uint16 i).
  pose proof (hash_index_lt tbl s (to_uint16 i) Hlen) as Hlt.
  rewrite insert_entry_eq, replace_entry_list_find.
  set (k := Z.to_nat (hash_function s (to_uint16 i))) in *.
  set (n := {| e_src := s; e_packet_id := to_uint16 i; e_timestamp := now |}).
  destruct (list_find _ (bucket tbl k)) as [[j x]|];
    cbn [fmap option_fmap option_map default from_option id fst];
    (split; [reflexivity|]).
  - pose proof (cache_size_insert tbl k _ (<[j := n]> (bucket tbl k))
                  (bucket_lookup tbl k Hlt)) as Hsz.
    rewrite length_insert in Hsz. lia.
  - pose proof (cache_size_insert tbl k _ (n :: bucket tbl k)
                  (bucket_lookup tbl k Hlt)) as Hsz.
    cbn [length] in Hsz. lia.
Qed.

Lemma insert_entry_in_place_witness :
  let index := Z.to_nat (hash_function 9 (7 mod 2 ^ 16)) in
  let new_entry :=
    {| e_src := 9; e_packet_id := 7 mod 2 ^ 16; e_timestamp := 150 |} in
  match list_find (λ e, entry_key e = (9, 7 mod 2 ^ 16))
          (bucket (insert_entry 120 seen_table 1033 7) index) with
  | Some (k, _) =>
      insert_entry 150 (insert_entry 120 seen_table 1033 7) 9 7
      = <[index := <[k := new_entry]>
                     (bucket (insert_entry 120 seen_table 1033 7) index)]>
          (insert_entry 120 seen_table 1033 7)
      ∧ cache_size
          (insert_entry 150 (insert_entry 120 seen_table 1033 7) 9 7)
        = cache_size (insert_entry 120 seen_table 1033 7)
  | None =>
      insert_entry 150 (insert_entry 120 seen_table 1033 7) 9 7
      = <[index := new_entry
                   :: bucket (insert_entry 120 seen_table 1033 7) index]>
          (insert_entry 120 seen_table 1033 7)
      ∧ cache_size
          (insert_entry 150 (insert_entry 120 seen_table 1033 7) 9 7)
        = S (cache_size (insert_entry 120 seen_table 1033 7))
  end.
Proof.
  apply (insert_entry_in_place 150 (insert_entry 120 seen_table 1033 7) 9 7).
  vm_compute. reflexivity.
Defined.

(* In the witness above the entry of (9, 7) is the second of its chain,
   behind the one of (1033, 7), and it is overwritten there. *)
Lemma insert_entry_in_place_example :
  bucket (insert_entry 120 seen_table 1033 7) 14
  = [{| e_src := 1033; e_packet_id := 7; e_timestamp := 120 |};
     {| e_src := 9; e_packet_id := 7; e_timestamp := 100 |}]
  ∧ bucket (insert_entry 150 (insert_entry 120 seen_table 1033 7) 9 7) 14
    = [{| e_src := 1033; e_packet_id := 7; e_timestamp := 120 |};
       {| e_src := 9; e_packet_id := 7; e_timestamp := 150 |}].
Proof. split; vm_compute; reflexivity. Qed.

Lemma cache_ok_insert_entry (now : Z) (tbl : list (list HashEntry))
    (s i : Z) :
  cache_ok tbl → cache_ok (insert_entry now tbl s i).
Proof.
  intros [Hlen Hok]. split; [by rewrite insert_entry_length|].
  rewrite insert_entry_eq.
  pose proof (hash_index_lt tbl s (to_uint16 i) Hlen) as Hlt.
  set (k := Z.to_nat (hash_function s (to_uint16 i))) in *.
  set (n := {| e_src := s; e_packet_id := to_uint16 i; e_timestamp := now |}).
  intros index c Hc.
  destruct (decide (k = index)) as [<-|Hk];
    [|rewrite list_lookup_insert_ne in Hc by exact Hk; by apply Hok].
  rewrite list_lookup_insert_eq in Hc by exact Hlt. injection Hc as <-.
  destruct (Hok k (bucket tbl k) (bucket_lookup tbl k Hlt)) as [Hnd Hall].
  assert (Z.to_nat (hash_function (e_src n) (e_packet_id n)) = k
          ∧ 0 ≤ e_packet_id n < 2 ^ 16) as Hn.
  { split; [reflexivity|]. simpl. unfold to_uint16.
    apply Z.mod_pos_bound. lia. }
  destruct (replace_entry s (to_uint16 i) n (bucket tbl k)) as [c'|] eqn:Hrep;
    cbn [default from_option id].
  - split.
    + destruct (replace_entry_keys s (to_uint16 i) n _ _ eq_refl Hrep)
        as [-> _]. exact Hnd.
    + eapply replace_entry_Forall; [exact Hn|exact Hall|exact Hrep].
  - split.
    + rewrite fmap_cons. apply NoDup_cons. split; [|exact Hnd].
      apply replace_entry_None, find_entry_None_iff in Hrep. exact Hrep.
    + by constructor.
Qed.

(** X3: insert_entry keeps the table well formed: 1024 buckets, no key
    twice in a chain, every entry in the bucket of its hash and with a
    packet id below 2^16.  The zeroed table is well formed
    ([cache_ok_init]). *)
Theorem insert_entry_keeps_cache_ok (now : Z) (tbl : list (list HashEntry))
    (s i : Z) :
  cache_ok tbl → cache_ok (insert_entry now tbl s i).
Proof. apply cache_ok_insert_entry. Qed.

Lemma insert_entry_keeps_cache_ok_witness :
  cache_ok (insert_entry 100 hash_table_init 9 7).
Proof.
  apply (insert_entry_keeps_cache_ok 100 hash_table_init 9 7).
  exact cache_ok_init.
Defined.

(** X4: inserting a key twice leaves what inserting it the second time
    alone leaves: the first entry is overwritten, not kept beside the
    second. *)
Theorem insert_entry_twice (t1 t2 : Z) (tbl : list (list HashEntry))
    (s i : Z) :
  length tbl = Z.to_nat HASH_TABLE_SIZE →
  insert_entry t2 (insert_entry t1 tbl s i) s i = insert_entry t2 tbl s i.
Proof.
  intros Hlen.
  rewrite (insert_entry_eq t2), (insert_entry_eq t1), (insert_entry_eq t2).
  pose proof (hash_index_lt tbl s (to_uint16 i) Hlen) as Hlt.
  set (k := Z.to_nat (hash_function s (to_uint16 i))) in *.
  set (n1 := {| e_src := s; e_packet_id := to_uint16 i; e_timestamp := t1 |}).
  set (n2 := {| e_src := s; e_packet_id := to_uint16 i; e_timestamp := t2 |}).
  rewrite bucket_insert_eq by exact Hlt.
  rewrite list_insert_insert_eq. f_equal.
  destruct (replace_entry s (to_uint16 i) n1 (bucket tbl k)) as [c1|] eqn:Hrep;
    cbn [default from_option id].
  - rewrite (replace_entry_twice s (to_uint16 i) n1 n2 _ _ eq_refl Hrep).
    destruct (replace_entry s (to_uint16 i) n2 (bucket tbl k)) eqn:Hrep2;
      [reflexivity|].
    apply replace_entry_None in Hrep2.
    apply (replace_entry_None _ _ n1) in Hrep2. congruence.
  - cbn [replace_entry]. subst n1.
    rewrite (same_key_new_entry t1 s (to_uint16 i)).
    apply replace_entry_None in Hrep.
    apply (replace_entry_None _ _ n2) in Hrep. rewrite Hrep. reflexivity.
Qed.

Lemma insert_entry_twice_witness :
  insert_entry 150 (insert_entry 100 hash_table_init 9 7) 9 7
  = insert_entry 150 hash_table_init 9 7.
Proof.
  apply (insert_entry_twice 100 150 hash_table_init 9 7).
  vm_compute. reflexivity.
Defined.

(** X5: a lookup that does not return -1 returns the timestamp of an entry
    that is in the bucket of the key, carries the source and the packet id
    modulo 2^16 asked for, and is at most 120 seconds old. *)
Theorem get_timestamp_sound (now : Z) (tbl : list (list HashEntry))
    (s i : Z) :
  get_timestamp now tbl s i ≠ -1 →
  ∃ e,
    e ∈ bucket tbl (Z.to_nat (hash_function s (to_uint16 i)))
    ∧ e_src e = s ∧ e_packet_id e = to_uint16 i
    ∧ e_timestamp e = get_timestamp now tbl s i
    ∧ now - e_timestamp e ≤ ENTRY_TTL_SECONDS.
Proof.
  unfold get_timestamp.
  destruct (find_entry _ _ _) as [e|] eqn:Hf; [|congruence].
  apply find_entry_Some in Hf as [Hin [= Hs Hi]].
  destruct (Z.gtb_spec (now - e_timestamp e) ENTRY_TTL_SECONDS);
    [congruence|].
  intros _. exists e. repeat split; first [assumption|reflexivity|lia].
Qed.

Lemma get_timestamp_sound_witness :
  ∃ e,
    e ∈ bucket seen_table (Z.to_nat (hash_function 9 (to_uint16 7)))
    ∧ e_src e = 9 ∧ e_packet_id e = to_uint16 7
    ∧ e_timestamp e = get_timestamp 150 seen_table 9 7
    ∧ 150 - e_timestamp e ≤ ENTRY_TTL_SECONDS.
Proof.
  apply (get_timestamp_sound 150 seen_table 9 7).
  vm_compute. discriminate.
Defined.

(** X6: in a well-formed table every stored entry is reachable: looking up
    the source and packet id of an entry that is at most 120 seconds old
    returns that entry's timestamp, and -1 once it is older. *)
Theorem get_timestamp_complete (now : Z) (tbl : list (list HashEntry))
    (index : nat) (c : list HashEntry) (e : HashEntry) :
  cache_ok tbl → tbl !! index = Some c → e ∈ c →
  get_timestamp now tbl (e_src e) (e_packet_id e)
  = if now - e_timestamp e >? ENTRY_TTL_SECONDS then -1 else e_timestamp e.
Proof.
  intros [Hlen Hok] Hc Hin.
  destruct (Hok index c Hc) as [Hnd Hall].
  rewrite Forall_forall in Hall. destruct (Hall e Hin) as [Hidx Hrange].
  unfold get_timestamp.
  assert (to_uint16 (e_packet_id e) = e_packet_id e) as ->
    by (unfold to_uint16; apply Z.mod_small; lia).
  rewrite Hidx. unfold bucket. rewrite Hc. cbn [default from_option id].
  rewrite (find_entry_NoDup c e Hnd Hin). reflexivity.
Qed.

Lemma get_timestamp_complete_witness :
  get_timestamp 150 seen_table
    (e_src {| e_src := 9; e_packet_id := 7; e_timestamp := 100 |})
    (e_packet_id {| e_src := 9; e_packet_id := 7; e_timestamp := 100 |})
  = if 150 - e_timestamp
             {| e_src := 9; e_packet_id := 7; e_timestamp := 100 |}
       >? ENTRY_TTL_SECONDS
    then -1
    else e_timestamp {| e_src := 9; e_packet_id := 7; e_timestamp := 100 |}.
Proof.
  apply (get_timestamp_complete 150 seen_table 14
           [{| e_src := 9; e_packet_id := 7; e_timestamp := 100 |}]).
  - apply cache_ok_insert_entry, cache_ok_init.
  - vm_compute. reflexivity.
  - apply list_elem_of_singleton. reflexivity.
Defined.

(** ** The forwarding operation, beyond the claims *)

(** X7: on a frame whose header can be read, the forwarding operation calls
    exactly one primitive, on the frame as it stands, and never the upward
    one.  It is the link-layer send exactly when the destination is the
    node's own non-zero address, or the destination is another one, the ttl
    is not 0, and the frame is a broadcast or has a route; in every other
    case it is the error response. *)
Theorem forward_sends_iff (node : Z) (lpm : Z → Z) (l3frame : list byte)
    (len : Z) (h : L3_hdr) :
  read_L3_hdr l3frame = Some h →
  ∃ e,
    my_fish_l3_forward node lpm l3frame len = Some [e]
    ∧ event_sees l3frame e
    ∧ is_l4_receive e = false
    ∧ (is_l2_send e = true ↔
       (dst h = node ∧ node ≠ 0)
       ∨ (dst h ≠ node ∧ ttl h ≠ 0
          ∧ (dst h = ALL_NEIGHBORS ∨ lpm (dst h) ≠ 0)))
    ∧ (is_fcmp_response e = true ↔ is_l2_send e = false).
Proof.
  intros Hread.
  destruct (Z.eq_dec (dst h) node) as [Hself|Hself].
  { rewrite (forward_self node lpm l3frame len h Hread Hself).
    destruct (Z.eqb_spec node 0) as [Hz|Hz]; eexists;
      (split; [reflexivity|]); cbn; repeat split; try done;
      intuition congruence. }
  destruct (Z.eq_dec (ttl h) 0) as [Httl|Httl].
  { rewrite (forward_ttl_exceeded node lpm l3frame len h Hread Httl Hself).
    eexists. split; [reflexivity|]. cbn. repeat split; try done.
    intuition congruence. }
  destruct (Z.eq_dec (dst h) ALL_NEIGHBORS) as [Hall|Hall].
  { rewrite (forward_broadcast node lpm l3frame len h Hread Httl Hall Hself).
    eexists. split; [reflexivity|]. cbn. repeat split; try done.
    intros _. right. auto. }
  rewrite (forward_unicast node lpm l3frame len h Hread Httl Hall Hself).
  destruct (Z.eqb_spec (lpm (dst h)) 0) as [Hz|Hz]; eexists;
    (split; [reflexivity|]); cbn; repeat split; try done;
    intuition congruence.
Qed.

Lemma forward_sends_iff_witness :
  ∃ e,
    my_fish_l3_forward example_node no_routes other_frame 16 = Some [e]
    ∧ event_sees other_frame e
    ∧ is_l4_receive e = false
    ∧ (is_l2_send e = true ↔
       (dst other_hdr = example_node ∧ example_node ≠ 0)
       ∨ (dst other_hdr ≠ example_node ∧ ttl other_hdr ≠ 0
          ∧ (dst other_hdr = ALL_NEIGHBORS ∨ no_routes (dst other_hdr) ≠ 0)))
    ∧ (is_fcmp_response e = true ↔ is_l2_send e = false).
Proof.
  apply (forward_sends_iff example_node no_routes other_frame 16 other_hdr).
  vm_compute. reflexivity.
Defined.

(** X8: a broadcast frame is forwarded without regard to the forwarding
    table: whatever longest_prefix_match returns, the outcome is the same,
    and with a non-zero ttl (and a node address other than the broadcast
    address) it is one link-layer send to all neighbours, never a no-route
    error. *)
Theorem forward_broadcast_ignores_routes (node : Z) (lpm lpm' : Z → Z)
    (l3frame : list byte) (len : Z) (h : L3_hdr) :
  read_L3_hdr l3frame = Some h →
  dst h = ALL_NEIGHBORS →
  my_fish_l3_forward node lpm l3frame len
  = my_fish_l3_forward node lpm' l3frame len
  ∧ (ttl h ≠ 0 → node ≠ ALL_NEIGHBORS →
     my_fish_l3_forward node lpm l3frame len
     = Some [fish_l2_send l3frame ALL_NEIGHBORS len L2_PROTO_L3]).
Proof.
  intros Hread Hall. split.
  - unfold my_fish_l3_forward. rewrite Hread. simpl.
    rewrite Hall, Z.eqb_refl. reflexivity.
  - intros Httl Hnode. apply (forward_broadcast node lpm _ _ h); auto.
    congruence.
Qed.

Lemma forward_broadcast_ignores_routes_witness :
  my_fish_l3_forward example_node no_routes bcast_frame 16
  = my_fish_l3_forward example_node (λ _, 44) bcast_frame 16
  ∧ (ttl bcast_hdr ≠ 0 → example_node ≠ ALL_NEIGHBORS →
     my_fish_l3_forward example_node no_routes bcast_frame 16
     = Some [fish_l2_send bcast_frame ALL_NEIGHBORS 16 L2_PROTO_L3]).
Proof.
  apply (forward_broadcast_ignores_routes example_node no_routes (λ _, 44)
           bcast_frame 16 bcast_hdr).
  - vm_compute. reflexivity.
  - reflexivity.
Defined.

(** ** The receive callback, beyond the claims *)

(* The six ways through my_fishnode_l3_receive, each with its result. *)
Ltac receive_split node lpm now1 now2 tbl f len proto h Hread :=
  let Hself := fresh "Hself" in
  let Hall := fresh "Hall" in
  let Hts := fresh "Hts" in
  let Httl := fresh "Httl" in
  destruct (Z.eq_dec (dst h) node) as [Hself|Hself];
  [ rewrite (receive_self node lpm now1 now2 tbl f len proto h Hread Hself)
  | destruct (Z.eq_dec (dst h) ALL_NEIGHBORS) as [Hall|Hall];
    [ destruct (Z.eq_dec (get_timestamp now1 tbl (src h) (packet_id h)) (-1))
        as [Hts|Hts];
      [ rewrite (receive_broadcast_miss node lpm now1 now2 tbl f len proto h
                   Hread Hself Hall Hts)
      | destruct (Z_le_gt_dec (ttl h) 1) as [Httl|Httl];
        [ rewrite (receive_broadcast_hit_low_ttl node lpm now1 now2 tbl f len
                     proto h Hread Hself Hall Hts Httl)
        | apply Z.gt_lt in Httl;
          rewrite (receive_broadcast_hit node lpm now1 now2 tbl f len proto h
                     Hread Hself Hall Hts Httl) ] ]
    | destruct (Z_le_gt_dec (ttl h) 1) as [Httl|Httl];
      [ rewrite (receive_other_low_ttl node lpm now1 now2 tbl f len proto h
                   Hread Hself Hall Httl)
      | apply Z.gt_lt in Httl;
        rewrite (receive_other node lpm now1 now2 tbl f len proto h
                   Hread Hself Hall Httl) ] ] ].

(* An overwrite of an entry that is there keeps the number of entries. *)
Lemma insert_entry_size_found (now : Z) (tbl : list (list HashEntry))
    (s i : Z) (e : HashEntry) :
  find_entry s (to_uint16 i)
    (bucket tbl (Z.to_nat (hash_function s (to_uint16 i)))) = Some e →
  cache_size (insert_entry now tbl s i) = cache_size tbl.
Proof.
  intros Hf. rewrite insert_entry_eq.
  set (k := Z.to_nat (hash_function s (to_uint16 i))) in *.
  set (n := {| e_src := s; e_packet_id := to_uint16 i; e_timestamp := now |}).
  assert (tbl !! k = Some (bucket tbl k)) as Hk.
  { unfold bucket in *. destruct (tbl !! k); [reflexivity|discriminate]. }
  destruct (replace_entry s (to_uint16 i) n (bucket tbl k)) as [c'|] eqn:Hrep.
  - cbn [default from_option id].
    destruct (replace_entry_keys s (to_uint16 i) n _ _ eq_refl Hrep) as [_ Hl].
    pose proof (cache_size_insert tbl k _ c' Hk). lia.
  - apply replace_entry_None in Hrep. congruence.
Qed.

Lemma count_events_nil (p : event → bool) : count_events p [] = 0%nat.
Proof. reflexivity. Qed.

Lemma count_events_cons (p : event → bool) (e : event) (evs : list event) :
  count_events p (e :: evs)
  = ((if p e then 1 else 0) + count_events p evs)%nat.
Proof.
  unfold count_events. rewrite filter_cons.
  destruct (p e); case_decide; simpl; congruence.
Qed.

Ltac count_events_simpl :=
  rewrite ?count_events_cons, ?count_events_nil; cbn.

(** X9: the receive callback hands a frame upward at most once and calls at
    most one of the link-layer send and the error response; it never sends
    a TTL-exceeded response, whatever the frame. *)
Theorem receive_at_most_once (node : Z) (lpm : Z → Z) (now1 now2 : Z)
    (tbl : list (list HashEntry)) (l3frame : list byte) (len proto : Z)
    (h : L3_hdr) :
  read_L3_hdr l3frame = Some h →
  ∃ tbl' l3frame' evs,
    my_fishnode_l3_receive node lpm now1 now2 tbl l3frame len proto
    = Some (tbl', l3frame', evs)
    ∧ (count_events is_l4_receive evs ≤ 1)%nat
    ∧ (count_events is_l2_send evs + count_events is_fcmp_response evs ≤ 1)%nat
    ∧ count_events (is_fcmp_error FCMP_TTL_EXCEEDED) evs = 0%nat.
Proof.
  intros Hread.
  receive_split node lpm now1 now2 tbl l3frame len proto h Hread;
    do 3 eexists; (split; [reflexivity|]);
    try destruct (lpm (dst h) =? 0); count_events_simpl; lia.
Qed.

Lemma receive_at_most_once_witness :
  ∃ tbl' l3frame' evs,
    my_fishnode_l3_receive example_node no_routes 150 150 seen_table
      bcast_frame 16 3
    = Some (tbl', l3frame', evs)
    ∧ (count_events is_l4_receive evs ≤ 1)%nat
    ∧ (count_events is_l2_send evs + count_events is_fcmp_response evs ≤ 1)%nat
    ∧ count_events (is_fcmp_error FCMP_TTL_EXCEEDED) evs = 0%nat.
Proof.
  apply (receive_at_most_once example_node no_routes 150 150 seen_table
           bcast_frame 16 3 bcast_hdr).
  vm_compute. reflexivity.
Defined.

(** X10: the ttl the frame carries on return is the one it came with, or
    that minus one.  Whenever the callback calls the link-layer send or the
    error response, the ttl has been decremented by exactly one and is
    still between 1 and 254: no frame leaves with ttl 0 and the decrement
    never wraps. *)
Theorem receive_ttl_on_return (node : Z) (lpm : Z → Z) (now1 now2 : Z)
    (tbl : list (list HashEntry)) (l3frame : list byte) (len proto : Z)
    (h : L3_hdr) :
  read_L3_hdr l3frame = Some h →
  ∃ tbl' l3frame' evs h',
    my_fishnode_l3_receive node lpm now1 now2 tbl l3frame len proto
    = Some (tbl', l3frame', evs)
    ∧ read_L3_hdr l3frame' = Some h'
    ∧ (ttl h' = ttl h ∨ ttl h' = ttl h - 1)
    ∧ (Exists (λ e, is_l4_receive e = false) evs →
       ttl h' = ttl h - 1 ∧ 1 ≤ ttl h' ≤ 254).
Proof.
  intros Hread.
  pose proof (read_L3_hdr_ttl_range _ _ Hread) as Hrange.
  receive_split node lpm now1 now2 tbl l3frame len proto h Hread.
  1-3, 5: do 3 eexists; exists h; (split; [reflexivity|]);
    (split; [exact Hread|]); (split; [by left|]);
    intros Hex; repeat (apply Exists_cons in Hex as [Hex|Hex]; [done|]);
    by apply Exists_nil in Hex.
  all: pose proof (read_L3_hdr_decrement _ _ Hread Httl) as Hread';
    do 4 eexists; (split; [reflexivity|]); (split; [exact Hread'|]);
    cbn [ttl]; split; [by right|intros _; lia].
Qed.

Lemma receive_ttl_on_return_witness :
  ∃ tbl' l3frame' evs h',
    my_fishnode_l3_receive example_node no_routes 100 100 hash_table_init
      other_frame 16 3
    = Some (tbl', l3frame', evs)
    ∧ read_L3_hdr l3frame' = Some h'
    ∧ (ttl h' = ttl other_hdr ∨ ttl h' = ttl other_hdr - 1)
    ∧ (Exists (λ e, is_l4_receive e = false) evs →
       ttl h' = ttl other_hdr - 1 ∧ 1 ≤ ttl h' ≤ 254).
Proof.
  apply (receive_ttl_on_return example_node no_routes 100 100 hash_table_init
           other_frame 16 3 other_hdr).
  vm_compute. reflexivity.
Defined.

(** X11: the receive callback never adds an entry to the cache.  The table
    on return is the table on entry, or, for a broadcast whose lookup
    succeeded, that table with the entry of the frame's pair overwritten by
    one with the new time: the number of entries and of buckets is the
    same. *)
Theorem receive_never_grows_cache (node : Z) (lpm : Z → Z) (now1 now2 : Z)
    (tbl : list (list HashEntry)) (l3frame : list byte) (len proto : Z)
    (h : L3_hdr) :
  read_L3_hdr l3frame = Some h →
  ∃ tbl' l3frame' evs,
    my_fishnode_l3_receive node lpm now1 now2 tbl l3frame len proto
    = Some (tbl', l3frame', evs)
    ∧ cache_size tbl' = cache_size tbl
    ∧ length tbl' = length tbl
    ∧ (tbl' = tbl
       ∨ dst h = ALL_NEIGHBORS
         ∧ get_timestamp now1 tbl (src h) (packet_id h) ≠ -1
         ∧ tbl' = insert_entry now2 tbl (src h) (packet_id h)).
Proof.
  intros Hread.
  receive_split node lpm now1 now2 tbl l3frame len proto h Hread;
    do 3 eexists; (split; [reflexivity|]).
  1-2, 5-6: by repeat split; try left.
  all: destruct (get_timestamp_found _ _ _ _ Hts) as [e He];
    (split; [exact (insert_entry_size_found now2 tbl _ _ e He)|]);
    (split; [apply insert_entry_length|]); right; by repeat split.
Qed.

Lemma receive_never_grows_cache_witness :
  ∃ tbl' l3frame' evs,
    my_fishnode_l3_receive example_node no_routes 150 150 seen_table
      bcast_frame 16 3
    = Some (tbl', l3frame', evs)
    ∧ cache_size tbl' = cache_size seen_table
    ∧ length tbl' = length seen_table
    ∧ (tbl' = seen_table
       ∨ dst bcast_hdr = ALL_NEIGHBORS
         ∧ get_timestamp 150 seen_table (src bcast_hdr) (packet_id bcast_hdr)
           ≠ -1
         ∧ tbl' = insert_entry 150 seen_table (src bcast_hdr)
                    (packet_id bcast_hdr)).
Proof.
  apply (receive_never_grows_cache example_node no_routes 150 150 seen_table
           bcast_frame 16 3 bcast_hdr).
  vm_compute. reflexivity.
Defined.

(** X12: a node that starts with the zeroed table, as the program does,
    never processes a broadcast: over any sequence of broadcast frames (not
    addressed to the node itself) the receive callback delivers nothing
    upward, floods nothing, and leaves the table zeroed. *)
Theorem broadcasts_never_processed (node : Z) (lpm : Z → Z)
    (frames : list rx) :
  Forall (λ r, ∃ h, read_L3_hdr (rx_frame r) = Some h
                    ∧ dst h = ALL_NEIGHBORS ∧ dst h ≠ node) frames →
  receive_all node lpm hash_table_init frames = Some (hash_table_init, []).
Proof.
  induction 1 as [|r frames (h & Hread & Hall & Hself) _ IH];
    [reflexivity|].
  cbn [receive_all].
  rewrite (broadcast_dropped_on_init node lpm _ _ _ _ _ h Hread Hself Hall).
  cbn. rewrite IH. reflexivity.
Qed.

Lemma broadcasts_never_processed_witness :
  receive_all example_node no_routes hash_table_init
    [{| rx_now_lookup := 100; rx_now_insert := 100; rx_frame := bcast_frame;
        rx_len := 16; rx_protocol := 3 |};
     {| rx_now_lookup := 101; rx_now_insert := 101; rx_frame := bcast_frame;
        rx_len := 16; rx_protocol := 3 |}]
  = Some (hash_table_init, []).
Proof.
  apply (broadcasts_never_processed example_node no_routes).
  repeat constructor; exists bcast_hdr;
    (split; [vm_compute; reflexivity|]); (split; [reflexivity|]);
    vm_compute; discriminate.
Defined.

(** X13: a frame for another node (neither the node's address nor the
    broadcast address) is never handed upward and never touches the cache:
    the callback either drops it (ttl at most 1) or decrements its ttl and
    makes the one call of the forwarding operation. *)
Theorem receive_transit_not_delivered (node : Z) (lpm : Z → Z)
    (now1 now2 : Z) (tbl : list (list HashEntry)) (l3frame : list byte)
    (len proto : Z) (h : L3_hdr) :
  read_L3_hdr l3frame = Some h →
  dst h ≠ node → dst h ≠ ALL_NEIGHBORS →
  ∃ l3frame' evs,
    my_fishnode_l3_receive node lpm now1 now2 tbl l3frame len proto
    = Some (tbl, l3frame', evs)
    ∧ count_events is_l4_receive evs = 0%nat
    ∧ (ttl h ≤ 1 → l3frame' = l3frame ∧ evs = [])
    ∧ (1 < ttl h →
       l3frame' = store_ttl l3frame (ttl h - 1)
       ∧ my_fish_l3_forward node lpm l3frame' len = Some evs).
Proof.
  intros Hread Hself Hall.
  destruct (Z_le_gt_dec (ttl h) 1) as [Httl|Httl].
  - rewrite (receive_other_low_ttl node lpm _ _ _ _ _ _ h Hread Hself Hall
               Httl).
    do 2 eexists. split; [reflexivity|]. split; [reflexivity|].
    split; [done|lia].
  - apply Z.gt_lt in Httl.
    rewrite (receive_other node lpm _ _ _ _ _ _ h Hread Hself Hall Httl).
    do 2 eexists. split; [reflexivity|].
    split; [destruct (lpm (dst h) =? 0); by count_events_simpl|].
    split; [lia|]. intros _. split; [reflexivity|].
    pose proof (read_L3_hdr_decrement _ _ Hread Httl) as Hread'.
    rewrite (forward_unicast node lpm _ len _ Hread')
      by (simpl; first [lia|done]).
    reflexivity.
Qed.

Lemma receive_transit_not_delivered_witness :
  ∃ l3frame' evs,
    my_fishnode_l3_receive example_node no_routes 100 100 seen_table
      other_frame 16 3
    = Some (seen_table, l3frame', evs)
    ∧ count_events is_l4_receive evs = 0%nat
    ∧ (ttl other_hdr ≤ 1 → l3frame' = other_frame ∧ evs = [])
    ∧ (1 < ttl other_hdr →
       l3frame' = store_ttl other_frame (ttl other_hdr - 1)
       ∧ my_fish_l3_forward example_node no_routes l3frame' 16 = Some evs).
Proof.
  apply (receive_transit_not_delivered example_node no_routes 100 100
           seen_table other_frame 16 3 other_hdr).
  - vm_compute. reflexivity.
  - vm_compute. discriminate.
  - vm_compute. discriminate.
Defined.

(** ** my_fish_l3_send *)

Lemma u32_bytes (v : Z) :
  0 ≤ v < 2 ^ 32 →
  to_uint8 v + 2 ^ 8 * to_uint8 (v / 2 ^ 8) + 2 ^ 16 * to_uint8 (v / 2 ^ 16)
  + 2 ^ 24 * to_uint8 (v / 2 ^ 24) = v.
Proof.
  intros Hv. unfold to_uint8.
  change (2 ^ 8) with 256. change (2 ^ 16) with 65536.
  change (2 ^ 24) with 16777216. change (2 ^ 32) with 4294967296 in Hv.
  Z.div_mod_to_equations. lia.
Qed.

Lemma l4len_of_int (len : Z) :
  - 2 ^ 31 + 14 ≤ len < 2 ^ 31 → l4len_of len = len - 14.
Proof.
  intros Hlen. unfold l4len_of, to_int, to_size_t.
  change (Z.of_nat sizeof_L3_hdr) with 14.
  change (2 ^ 31) with 2147483648 in *. change (2 ^ 32) with 4294967296.
  change (2 ^ 64) with 18446744073709551616.
  Z.div_mod_to_equations. lia.
Qed.

Lemma l3_send_ttl_range (ttl_arg : Z) : 1 ≤ l3_send_ttl ttl_arg ≤ MAX_TTL.
Proof.
  unfold l3_send_ttl, MAX_TTL.
  pose proof (to_uint8_range ttl_arg) as Hr.
  destruct (Z.eqb_spec (to_uint8 ttl_arg) 0); simpl; [lia|].
  destruct (Z.gtb_spec (to_uint8 ttl_arg) 64); lia.
Qed.

(* The frame my_fish_l3_send builds, byte by byte: only the four bytes of
   the packet id come from the block. *)
Lemma l3_send_frame_bytes (node : Z) (block l4frame : list byte)
    (len dst_addr proto ttl_v : Z) :
  0 ≤ len →
  Z.of_nat (length block) = Z.of_nat sizeof_L3_hdr + len →
  ∃ b2 b3 b4 b5,
    block !! 2%nat = Some b2 ∧ block !! 3%nat = Some b3
    ∧ block !! 4%nat = Some b4 ∧ block !! 5%nat = Some b5
    ∧ l3_send_frame node block l4frame len dst_addr proto ttl_v
      = [byte_of_Z ttl_v; byte_of_Z proto; b2; b3; b4; b5]
        ++ bytes_of_u32 node ++ bytes_of_u32 dst_addr
        ++ take (Z.to_nat len) l4frame.
Proof.
  intros Hlen Hsize. change (Z.of_nat sizeof_L3_hdr) with 14 in Hsize.
  do 14 (destruct block as [|? block]; [simpl in Hsize; lia|]).
  assert (length block = Z.to_nat len) as Hrest by (simpl in Hsize; lia).
  do 4 eexists. do 4 (split; [reflexivity|]).
  unfold l3_send_frame, store32, store8, memcpy, bytes_of_u32.
  destruct offsets_computed as (-> & -> & _ & -> & -> & ->).
  cbn [Nat.add insert list_insert take drop app].
  rewrite drop_ge by lia. rewrite app_nil_r. reflexivity.
Qed.

Lemma read_L3_hdr_built (t p node d : Z) (b2 b3 b4 b5 : byte)
    (payload : list byte) :
  0 ≤ t < 256 → 0 ≤ p < 256 → 0 ≤ node < 2 ^ 32 → 0 ≤ d < 2 ^ 32 →
  read_L3_hdr ([byte_of_Z t; byte_of_Z p; b2; b3; b4; b5]
               ++ bytes_of_u32 node ++ bytes_of_u32 d ++ payload)
  = Some {| ttl := t; protocol := p;
            packet_id := byte_val b2 + 2 ^ 8 * byte_val b3
                         + 2 ^ 16 * byte_val b4 + 2 ^ 24 * byte_val b5;
            src := node; dst := d |}.
Proof.
  intros Ht Hp Hn Hd.
  unfold read_L3_hdr, load8, load32, bytes_of_u32.
  destruct offsets_computed as (-> & -> & -> & -> & -> & _).
  cbn [app lookup list_lookup Nat.add fmap option_fmap option_map mbind
       option_bind].
  rewrite !byte_val_of_Z, (u32_bytes node Hn), (u32_bytes d Hd).
  unfold to_uint8. rewrite !Z.mod_small by lia. reflexivity.
Qed.

(** X14: the frame my_fish_l3_send builds reads back as the header it was
    asked for: the ttl and protocol given, the node's own address as source,
    the destination given; the payload is the first [len] bytes of the L4
    frame and the frame is 14 + len bytes long.  The packet id is never
    written: its four bytes are those the malloc'ed block happened to
    hold. *)
Theorem l3_send_frame_reads_back (node : Z) (block l4frame : list byte)
    (len dst_addr proto ttl_v : Z) :
  0 ≤ len →
  Z.of_nat (length block) = Z.of_nat sizeof_L3_hdr + len →
  (Z.to_nat len ≤ length l4frame)%nat →
  0 ≤ ttl_v < 256 → 0 ≤ proto < 256 →
  0 ≤ node < 2 ^ 32 → 0 ≤ dst_addr < 2 ^ 32 →
  ∃ pid,
    load32 block (offsetof f_packet_id) = Some pid
    ∧ read_L3_hdr (l3_send_frame node block l4frame len dst_addr proto ttl_v)
      = Some {| ttl := ttl_v; protocol := proto; packet_id := pid;
                src := node; dst := dst_addr |}
    ∧ l4frame_of (l3_send_frame node block l4frame len dst_addr proto ttl_v)
      = take (Z.to_nat len) l4frame
    ∧ Z.of_nat
        (length (l3_send_frame node block l4frame len dst_addr proto ttl_v))
      = Z.of_nat sizeof_L3_hdr + len
    ∧ ∀ i : nat, (2 ≤ i < 6)%nat →
        l3_send_frame node block l4frame len dst_addr proto ttl_v !! i
        = block !! i.
Proof.
  intros Hlen Hsize Hsrc Ht Hp Hn Hd.
  destruct (l3_send_frame_bytes node block l4frame len dst_addr proto ttl_v
              Hlen Hsize) as (b2 & b3 & b4 & b5 & H2 & H3 & H4 & H5 & ->).
  eexists. split; [|split; [|split; [|split]]].
  - unfold load32. destruct offsets_computed as (_ & _ & -> & _).
    cbn [Nat.add]. rewrite H2, H3, H4, H5. reflexivity.
  - by apply read_L3_hdr_built.
  - reflexivity.
  - change (Z.of_nat sizeof_L3_hdr) with 14.
    rewrite !length_app, length_take. cbn [length bytes_of_u32]. lia.
  - intros i Hi.
    destruct i as [|[|[|[|[|[|i]]]]]]; try lia; cbn; congruence.
Qed.

Lemma l3_send_frame_reads_back_witness :
  ∃ pid,
    load32 (replicate 16 xff) (offsetof f_packet_id) = Some pid
    ∧ read_L3_hdr
        (l3_send_frame example_node (replicate 16 xff) [x61; x62; x63] 2 12 3
           64)
      = Some {| ttl := 64; protocol := 3; packet_id := pid;
                src := example_node; dst := 12 |}
    ∧ l4frame_of
        (l3_send_frame example_node (replicate 16 xff) [x61; x62; x63] 2 12 3
           64)
      = take (Z.to_nat 2) [x61; x62; x63]
    ∧ Z.of_nat
        (length
           (l3_send_frame example_node (replicate 16 xff) [x61; x62; x63] 2 12
              3 64))
      = Z.of_nat sizeof_L3_hdr + 2
    ∧ ∀ i : nat, (2 ≤ i < 6)%nat →
        l3_send_frame example_node (replicate 16 xff) [x61; x62; x63] 2 12 3
          64 !! i
        = replicate 16 xff !! i.
Proof.
  apply (l3_send_frame_reads_back example_node (replicate 16 xff)
           [x61; x62; x63] 2 12 3 64);
    first [reflexivity | vm_compute; lia | vm_compute; intuition discriminate].
Defined.

(* What my_fish_l3_send hands to the forwarding operation. *)
Lemma my_fish_l3_send_eq (node : Z) (lpm : Z → Z) (block l4frame : list byte)
    (len dst_addr proto ttl_arg : Z) :
  0 ≤ len → Z.of_nat sizeof_L3_hdr + len < 2 ^ 31 →
  (Z.to_nat len ≤ length l4frame)%nat →
  Z.of_nat (length block) = Z.of_nat sizeof_L3_hdr + len →
  my_fish_l3_send node lpm block l4frame len dst_addr proto ttl_arg
  = my_fish_l3_forward node lpm
      (l3_send_frame node block l4frame len dst_addr proto
         (l3_send_ttl ttl_arg))
      (Z.of_nat sizeof_L3_hdr + len).
Proof.
  intros H1 H2 H3 H4. unfold my_fish_l3_send.
  destruct (decide _) as [_|Hn]; [reflexivity|]. tauto.
Qed.

Lemma l3_send_ttl_eq (ttl_arg : Z) :
  0 ≤ ttl_arg < 256 →
  l3_send_ttl ttl_arg = if decide (1 ≤ ttl_arg ≤ 64) then ttl_arg else 64.
Proof.
  intros Hr. unfold l3_send_ttl, to_uint8, MAX_TTL.
  rewrite Z.mod_small by lia.
  destruct (Z.eqb_spec ttl_arg 0); destruct (Z.gtb_spec ttl_arg 64);
    case_decide; cbn [orb]; lia.
Qed.

(** X15: my_fish_l3_send puts a ttl between 1 and MAX_TTL (64) in the
    frame: the ttl asked for when that is between 1 and 64, and 64 when it
    is 0 or above 64.  It makes exactly one call, on the frame it built (the
    protocol and destination given, the node's address as source, the first
    [len] bytes of the L4 frame as payload) and with the length 14 + len.
    The call is never a TTL-exceeded response: it is the link-layer send,
    to the node's own address, to all neighbours or to the next hop of the
    forwarding table, unless that next hop is 0, and then it is the
    no-route response. *)
Theorem my_fish_l3_send_outcome (node : Z) (lpm : Z → Z)
    (block l4frame : list byte) (len dst_addr proto ttl_arg : Z) :
  0 ≤ len → Z.of_nat sizeof_L3_hdr + len < 2 ^ 31 →
  (Z.to_nat len ≤ length l4frame)%nat →
  Z.of_nat (length block) = Z.of_nat sizeof_L3_hdr + len →
  0 ≤ proto < 256 → 0 ≤ ttl_arg < 256 →
  0 ≤ node < 2 ^ 32 → 0 ≤ dst_addr < 2 ^ 32 →
  ∃ l3frame h evs,
    my_fish_l3_send node lpm block l4frame len dst_addr proto ttl_arg
    = Some evs
    ∧ evs
      = [let next_hop :=
           if decide (dst_addr = node) then node
           else if decide (dst_addr = ALL_NEIGHBORS) then ALL_NEIGHBORS
           else lpm dst_addr in
         if decide (next_hop = 0)
         then send_fcmp_response l3frame (14 + len) FCMP_NO_ROUTE
         else fish_l2_send l3frame next_hop (14 + len) L2_PROTO_L3]
    ∧ count_events (is_fcmp_error FCMP_TTL_EXCEEDED) evs = 0%nat
    ∧ read_L3_hdr l3frame = Some h
    ∧ ttl h = (if decide (1 ≤ ttl_arg ≤ 64) then ttl_arg else 64)
    ∧ protocol h = proto ∧ src h = node ∧ dst h = dst_addr
    ∧ l4frame_of l3frame = take (Z.to_nat len) l4frame.
Proof.
  intros Hlen Hint Hsrc Hsize Hp Hta Hn Hd.
  pose proof (l3_send_ttl_range ttl_arg) as Httl.
  pose proof (l3_send_ttl_eq ttl_arg Hta) as Hclamp.
  rewrite my_fish_l3_send_eq by assumption.
  assert (0 ≤ l3_send_ttl ttl_arg < 256) as Ht
    by (unfold MAX_TTL in Httl; lia).
  destruct (l3_send_frame_bytes node block l4frame len dst_addr proto
              (l3_send_ttl ttl_arg) Hlen Hsize)
    as (b2 & b3 & b4 & b5 & _ & _ & _ & _ & Hframe).
  pose proof (read_L3_hdr_built (l3_send_ttl ttl_arg) proto node dst_addr
                b2 b3 b4 b5 (take (Z.to_nat len) l4frame) Ht Hp Hn Hd)
    as Hread.
  rewrite <- Hframe in Hread.
  assert (l4frame_of
            (l3_send_frame node block l4frame len dst_addr proto
               (l3_send_ttl ttl_arg))
          = take (Z.to_nat len) l4frame) as Hpayload
    by (rewrite Hframe; reflexivity).
  set (frame := l3_send_frame node block l4frame len dst_addr proto
                  (l3_send_ttl ttl_arg)) in *.
  set (h := {| ttl := l3_send_ttl ttl_arg |}) in Hread.
  assert (ttl h ≠ 0) as Hnz by (simpl; lia).
  change (Z.of_nat sizeof_L3_hdr) with 14.
  exists frame, h. eexists. split; [|split; [reflexivity|]].
  - cbv zeta. destruct (decide (dst_addr = node)) as [Hself|Hself].
    { rewrite (forward_self node lpm frame _ h Hread Hself).
      destruct (Z.eqb_spec node 0); destruct (decide (node = 0)); done. }
    destruct (decide (dst_addr = ALL_NEIGHBORS)) as [Hall|Hall].
    { rewrite (forward_broadcast node lpm frame _ h Hread Hnz Hall Hself).
      destruct (decide (ALL_NEIGHBORS = 0)); done. }
    rewrite (forward_unicast node lpm frame _ h Hread Hnz Hall Hself).
    cbn [dst h].
    destruct (Z.eqb_spec (lpm dst_addr) 0);
      destruct (decide (lpm dst_addr = 0)); done.
  - split.
    { cbv zeta.
      destruct (decide (_ = 0)); by count_events_simpl. }
    split; [exact Hread|]. split; [exact Hclamp|]. by repeat split.
Qed.

Lemma my_fish_l3_send_outcome_witness :
  ∃ l3frame h evs,
    my_fish_l3_send example_node no_routes (replicate 16 xff)
      [x61; x62; x63] 2 12 3 0
    = Some evs
    ∧ evs
      = [let next_hop :=
           if decide (12 = example_node) then example_node
           else if decide (12 = ALL_NEIGHBORS) then ALL_NEIGHBORS
           else no_routes 12 in
         if decide (next_hop = 0)
         then send_fcmp_response l3frame (14 + 2) FCMP_NO_ROUTE
         else fish_l2_send l3frame next_hop (14 + 2) L2_PROTO_L3]
    ∧ count_events (is_fcmp_error FCMP_TTL_EXCEEDED) evs = 0%nat
    ∧ read_L3_hdr l3frame = Some h
    ∧ ttl h = (if decide (1 ≤ 0 ≤ 64) then 0 else 64)
    ∧ protocol h = 3 ∧ src h = example_node ∧ dst h = 12
    ∧ l4frame_of l3frame = take (Z.to_nat 2) [x61; x62; x63].
Proof.
  apply (my_fish_l3_send_outcome example_node no_routes (replicate 16 xff)
           [x61; x62; x63] 2 12 3 0);
    first [reflexivity | vm_compute; lia | vm_compute; intuition discriminate].
Defined.

(* The witness above, spelled out: a send with ttl 0 to node 12, for which
   there is no route, builds a frame with ttl 64 and reports no route. *)
Lemma my_fish_l3_send_example :
  my_fish_l3_send example_node no_routes (replicate 16 xff) [x61; x62; x63] 2
    12 3 0
  = Some [send_fcmp_response
            ([x40; x03; xff; xff; xff; xff; x07; x00; x00; x00;
              x0c; x00; x00; x00; x61; x62])
            16 FCMP_NO_ROUTE].
Proof. vm_compute. reflexivity. Qed.

(** X16: what one node sends, the destination node receives: the frame
    my_fish_l3_send builds at node [a] for node [b], handed unchanged to the
    receive callback of node [b], is delivered upward there once, with the
    bytes, the length and the protocol given to the sender and [a] as
    source; node [b]'s cache and the frame stay as they were and nothing is
    forwarded. *)
Theorem send_then_receive (a b : Z) (lpm : Z → Z) (block l4frame : list byte)
    (len proto ttl_arg now1 now2 proto_arg : Z)
    (tbl : list (list HashEntry)) :
  0 ≤ len → Z.of_nat sizeof_L3_hdr + len < 2 ^ 31 →
  (Z.to_nat len ≤ length l4frame)%nat →
  Z.of_nat (length block) = Z.of_nat sizeof_L3_hdr + len →
  0 ≤ proto < 256 → 0 ≤ a < 2 ^ 32 → 0 ≤ b < 2 ^ 32 →
  my_fishnode_l3_receive b lpm now1 now2 tbl
    (l3_send_frame a block l4frame len b proto (l3_send_ttl ttl_arg))
    (Z.of_nat sizeof_L3_hdr + len) proto_arg
  = Some (tbl,
          l3_send_frame a block l4frame len b proto (l3_send_ttl ttl_arg),
          [fish_l4_receive (take (Z.to_nat len) l4frame) len proto a]).
Proof.
  intros Hlen Hint Hsrc Hsize Hp Ha Hb.
  pose proof (l3_send_ttl_range ttl_arg) as Httl.
  assert (0 ≤ l3_send_ttl ttl_arg < 256) as Ht
    by (unfold MAX_TTL in Httl; lia).
  destruct (l3_send_frame_bytes a block l4frame len b proto
              (l3_send_ttl ttl_arg) Hlen Hsize)
    as (b2 & b3 & b4 & b5 & _ & _ & _ & _ & Hframe).
  pose proof (read_L3_hdr_built (l3_send_ttl ttl_arg) proto a b
                b2 b3 b4 b5 (take (Z.to_nat len) l4frame) Ht Hp Ha Hb)
    as Hread.
  rewrite <- Hframe in Hread.
  rewrite (receive_self b lpm _ _ _ _ _ _ _ Hread eq_refl).
  cbn [protocol src].
  assert (l4frame_of
            (l3_send_frame a block l4frame len b proto (l3_send_ttl ttl_arg))
          = take (Z.to_nat len) l4frame) as ->
    by (rewrite Hframe; reflexivity).
  change (Z.of_nat sizeof_L3_hdr) with 14 in *.
  rewrite l4len_of_int by lia.
  replace (14 + len - 14) with len by lia. reflexivity.
Qed.

Lemma send_then_receive_witness :
  my_fishnode_l3_receive 12 no_routes 100 100 hash_table_init
    (l3_send_frame example_node (replicate 16 xff) [x61; x62; x63] 2 12 3
       (l3_send_ttl 0))
    (Z.of_nat sizeof_L3_hdr + 2) 3
  = Some (hash_table_init,
          l3_send_frame example_node (replicate 16 xff) [x61; x62; x63] 2 12 3
            (l3_send_ttl 0),
          [fish_l4_receive (take (Z.to_nat 2) [x61; x62; x63]) 2 3
             example_node]).
Proof.
  apply (send_then_receive example_node 12 no_routes (replicate 16 xff)
           [x61; x62; x63] 2 3 0 100 100 3 hash_table_init);
    first [reflexivity | vm_compute; lia | vm_compute; intuition discriminate].
Defined.

(** ** The keyboard shell and the command line *)

Lemma char_val_inj (c1 c2 : Ascii.ascii) :
  char_val c1 = char_val c2 → c1 = c2.
Proof.
  unfold char_val. intros H. apply Nat2Z.inj' || idtac.
  assert (Ascii.N_of_ascii c1 = Ascii.N_of_ascii c2) as HN by lia.
  rewrite <- (Ascii.ascii_N_embedding c1), <- (Ascii.ascii_N_embedding c2).
  by rewrite HN.
Qed.

Lemma tolower_nul (c : Ascii.ascii) :
  char_val (tolower c) = 0 ↔ char_val c = 0.
Proof.
  destruct c as [[] [] [] [] [] [] [] []]; vm_compute; split; congruence.
Qed.

(* strcasecmp returns 0 exactly when the two C strings are equal once
   lowered. *)
Lemma strcasecmp_0_iff (s1 s2 : string) :
  strcasecmp s1 s2 = 0 ↔ lower (c_str s1) = lower (c_str s2).
Proof.
  revert s2. induction s1 as [|c1 r1 IH]; intros [|c2 r2];
    cbn [strcasecmp c_str lower].
  - tauto.
  - pose proof (tolower_nul c2) as Hn.
    destruct (Z.eqb_spec (char_val c2) 0); cbn [lower]; split;
      first [lia | done | intros; lia].
  - pose proof (tolower_nul c1) as Hn.
    destruct (Z.eqb_spec (char_val c1) 0); cbn [lower]; split;
      first [lia | done | intros; lia].
  - pose proof (tolower_nul c1) as Hn1. pose proof (tolower_nul c2) as Hn2.
    destruct (Z.eqb_spec (char_val (tolower c1) - char_val (tolower c2)) 0)
      as [Hd|Hd].
    + assert (tolower c1 = tolower c2) as Heq by (apply char_val_inj; lia).
      destruct (Z.eqb_spec (char_val c1) 0) as [H1|H1];
        destruct (Z.eqb_spec (char_val c2) 0) as [H2|H2];
        cbn [lower]; try lia; [tauto|].
      rewrite IH, Heq. split; [by intros ->|by intros [= ->]].
    + destruct (Z.eqb_spec (char_val c1) 0) as [H1|H1];
        destruct (Z.eqb_spec (char_val c2) 0) as [H2|H2];
        cbn [lower]; split; try done; try lia.
      intros [= Ht _]. rewrite Ht in Hd. lia.
Qed.

Lemma strcasecmp_eqb (s1 s2 : string) :
  (strcasecmp s1 s2 =? 0)
  = bool_decide (lower (c_str s1) = lower (c_str s2)).
Proof.
  destruct (Z.eqb_spec (strcasecmp s1 s2) 0) as [H|H];
    rewrite strcasecmp_0_iff in H; symmetry.
  - by apply bool_decide_eq_true.
  - by apply bool_decide_eq_false.
Qed.

Lemma first_char_not_nul_lower (line : string) :
  first_char_not_nul line
  = negb (bool_decide (EmptyString = lower (c_str line))).
Proof.
  destruct line as [|c r]; cbn [first_char_not_nul c_str lower];
    [reflexivity|].
  destruct (char_val c =? 0); reflexivity.
Qed.

(* keyboard_callback with every test read as a test on the lowered line. *)
Lemma keyboard_callback_lower (noprompt : bool) (line : string) :
  keyboard_callback noprompt line
  = (let l := lower (c_str line) in
     if bool_decide ("show neighbors" = l) then [fish_print_neighbor_table]
     else if bool_decide ("show arp" = l) then [fish_print_arp_table]
     else if bool_decide ("show route" = l) then
       [fish_print_forwarding_table; iterate_entries_print_route]
     else if bool_decide ("show dv" = l) then [fish_print_dv_state]
     else if bool_decide ("quit" = l) || bool_decide ("exit" = l)
     then [fish_main_exit]
     else if bool_decide ("show topo" = l) then [fish_print_lsa_topo]
     else if bool_decide ("help" = l) || bool_decide ("?" = l)
     then [printf_help]
     else if negb (bool_decide (EmptyString = l))
     then [printf_unknown_command line]
     else [])
    ++ (if noprompt then [] else [printf_prompt])
    ++ [fflush_stdout].
Proof.
  unfold keyboard_callback.
  rewrite !strcasecmp_eqb, first_char_not_nul_lower. reflexivity.
Qed.

(** X17: the keyboard shell asks the event loop to stop exactly when the
    line typed, cut at its terminator and lowered, is "quit" or "exit": no
    other command and no unknown input reaches fish_main_exit. *)
Theorem keyboard_exit_iff (noprompt : bool) (line : string) :
  fish_main_exit ∈ keyboard_callback noprompt line
  ↔ lower (c_str line) = "quit" ∨ lower (c_str line) = "exit".
Proof.
  rewrite keyboard_callback_lower. cbv zeta.
  generalize (lower (c_str line)). intros l.
  repeat (case_bool_decide; cbn [orb negb]);
    destruct noprompt; rewrite !elem_of_app, !elem_of_cons, !elem_of_nil;
    intuition congruence.
Qed.

(** X18: the keyboard shell matches commands without regard to case: two
    lines that are equal once cut at their terminator and lowered make the
    same calls in the same order (the text echoed for an unknown command
    left aside), and every call of the shell ends with one fflush,
    preceded by the prompt exactly when [noprompt] is not set. *)
Theorem keyboard_case_insensitive (noprompt : bool) (line1 line2 : string) :
  lower (c_str line1) = lower (c_str line2) →
  forget_text <$> keyboard_callback noprompt line1
  = forget_text <$> keyboard_callback noprompt line2
  ∧ ∃ calls,
      keyboard_callback noprompt line1
      = calls ++ (if noprompt then [] else [printf_prompt])
        ++ [fflush_stdout]
      ∧ (length calls ≤ 2)%nat
      ∧ (printf_prompt ∉ calls) ∧ (fflush_stdout ∉ calls).
Proof.
  intros Heq. rewrite !keyboard_callback_lower. cbv zeta. rewrite Heq.
  generalize (lower (c_str line2)). intros l. split.
  - repeat (case_bool_decide; cbn [orb negb]); destruct noprompt;
      reflexivity.
  - repeat (case_bool_decide; cbn [orb negb]); eexists;
      (split; [reflexivity|]); cbn [length]; (split; [lia|]);
      split; intros Hin;
      repeat (apply elem_of_cons in Hin as [Hin|Hin]; [discriminate|]);
      by apply elem_of_nil in Hin.
Qed.

Lemma keyboard_case_insensitive_witness :
  forget_text <$> keyboard_callback false "Show ARP"
  = forget_text <$> keyboard_callback false "show arp"
  ∧ ∃ calls,
      keyboard_callback false "Show ARP"
      = calls ++ (if false then [] else [printf_prompt])
        ++ [fflush_stdout]
      ∧ (length calls ≤ 2)%nat
      ∧ (printf_prompt ∉ calls) ∧ (fflush_stdout ∉ calls).
Proof.
  apply (keyboard_case_insensitive false "Show ARP" "show arp").
  vm_compute. reflexivity.
Defined.

(* main rejects every command line that does not have one, two or
   three arguments after the program name: it prints the usage message and
   returns 1 without installing the signal handler or joining a network;
   the built-in DV routing has been enabled by then. *)
Theorem main_usage (fn_aton : string → Z) (sigaction_ok : bool)
    (argv0 : string) (args : list string) :
  (length args = 0 ∨ 4 ≤ length args)%nat →
  main_until_join fn_aton sigaction_ok (argv0 :: args)
  = Some ([fish_enable_dvrouting_builtin 1; printf_usage argv0], Some 1,
          false).
Proof.
  intros Hlen. unfold main_until_join. cbn [length].
  destruct (Z.eqb_spec (Z.of_nat (S (length args))) 2); [lia|].
  destruct (Z.eqb_spec (Z.of_nat (S (length args))) 3); [lia|].
  destruct (Z.eqb_spec (Z.of_nat (S (length args))) 4); [lia|].
  reflexivity.
Qed.

Lemma main_usage_witness :
  main_until_join (λ _, 0) true ["fishnode"]
  = Some ([fish_enable_dvrouting_builtin 1; printf_usage "fishnode"], Some 1,
          false).
Proof.
  apply (main_usage (λ _, 0) true "fishnode" []).
  left. reflexivity.
Defined.

(** X19: with one to three arguments and the signal handler installed, what
    main joins depends on the arguments left after an optional first
    argument equal to "-noprompt" without regard to case.  One left: it
    calls fish_joinnetwork with it.  Two or more left: it calls
    fish_joinnetwork_addr with the first and the address parsed from the
    second, and ignores a third.  None left ("-noprompt" alone): it reads
    argv beyond its end. *)
Theorem main_join_choice (fn_aton : string → Z) (argv0 arg1 : string)
    (args : list string) :
  (length args ≤ 2)%nat →
  main_until_join fn_aton true (argv0 :: arg1 :: args)
  = let noprompt := bool_decide (lower (c_str arg1) = "-noprompt") in
    let calls :=
      [fish_enable_dvrouting_builtin 1; sigaction_SIGINT;
       fish_setdebuglevel FISH_DEBUG_INTERNAL; fish_setdebugfile_stdout] in
    match (if noprompt then args else arg1 :: args) with
    | [] => None
    | [fishhead] =>
        Some (calls ++ [fish_joinnetwork fishhead], None, noprompt)
    | fishhead :: addr :: _ =>
        Some (calls ++ [fish_joinnetwork_addr (Some fishhead) (fn_aton addr)],
              None, noprompt)
    end.
Proof.
  intros Hlen. unfold main_until_join.
  destruct args as [|a2 [|a3 [|a4 args]]]; cbn [length] in Hlen; try lia;
    cbn -[strcasecmp lower c_str]; rewrite strcasecmp_eqb;
    change (lower (c_str "-noprompt")) with "-noprompt";
    destruct (bool_decide (lower (c_str arg1) = "-noprompt"));
    reflexivity.
Qed.

Lemma main_join_choice_witness :
  main_until_join (λ _, 5) true ["fishnode"; "-NoPrompt"; "host:1"; "F-9"]
  = Some ([fish_enable_dvrouting_builtin 1; sigaction_SIGINT;
           fish_setdebuglevel FISH_DEBUG_INTERNAL; fish_setdebugfile_stdout;
           fish_joinnetwork_addr (Some "host:1") 5],
          None, true)
  ∧ main_until_join (λ _, 5) true ["fishnode"; "host:1"; "F-9"; "more"]
    = Some ([fish_enable_dvrouting_builtin 1; sigaction_SIGINT;
             fish_setdebuglevel FISH_DEBUG_INTERNAL;
             fish_setdebugfile_stdout;
             fish_joinnetwork_addr (Some "host:1") 5],
            None, false)
  ∧ main_until_join (λ _, 5) true ["fishnode"; "host:1"]
    = Some ([fish_enable_dvrouting_builtin 1; sigaction_SIGINT;
             fish_setdebuglevel FISH_DEBUG_INTERNAL;
             fish_setdebugfile_stdout; fish_joinnetwork "host:1"],
            None, false)
  ∧ main_until_join (λ _, 5) true ["fishnode"; "-NoPrompt"] = None.
Proof.
  split; [|split; [|split]].
  - rewrite (main_join_choice (λ _, 5) "fishnode" "-NoPrompt"
               ["host:1"; "F-9"]) by (cbn; lia).
    reflexivity.
  - rewrite (main_join_choice (λ _, 5) "fishnode" "host:1" ["F-9"; "more"])
      by (cbn; lia).
    reflexivity.
  - rewrite (main_join_choice (λ _, 5) "fishnode" "host:1" [])
      by (cbn; lia).
    reflexivity.
  - rewrite (main_join_choice (λ _, 5) "fishnode" "-NoPrompt" [])
      by (cbn; lia).
    reflexivity.
Defined.

(** ** Packet ids in the cache *)

(* An insertion leaves the lookup of any other key alone. *)
Lemma get_timestamp_insert_entry_ne (now t : Z) (tbl : list (list HashEntry))
    (s i s' i' : Z) :
  (s', to_uint16 i') ≠ (s, to_uint16 i) →
  get_timestamp now (insert_entry t tbl s i) s' i'
  = get_timestamp now tbl s' i'.
Proof.
  intros Hne. unfold get_timestamp. rewrite insert_entry_eq.
  set (k := Z.to_nat (hash_function s (to_uint16 i))).
  set (k' := Z.to_nat (hash_function s' (to_uint16 i'))).
  set (n := {| e_src := s; e_packet_id := to_uint16 i; e_timestamp := t |}).
  destruct (decide (k = k')) as [<-|Hk]; [|by rewrite bucket_insert_ne].
  destruct (decide (k < length tbl)%nat) as [Hlt|Hge];
    [|by rewrite list_insert_ge by lia].
  rewrite bucket_insert_eq by exact Hlt.
  destruct (replace_entry s (to_uint16 i) n (bucket tbl k)) as [c'|] eqn:Hrep;
    cbn [default from_option id].
  - by rewrite (replace_entry_other s (to_uint16 i) _ _ n _ _ Hne eq_refl Hrep).
  - cbn [find_entry].
    assert (same_key s' (to_uint16 i') n = false) as ->; [|reflexivity].
    apply same_key_false. unfold entry_key. simpl. congruence.
Qed.

(* The second of two insertions of a key takes the place of the first. *)
Lemma insert_entry_absorbs (t1 t2 : Z) (tbl : list (list HashEntry))
    (s i : Z) :
  length tbl = Z.to_nat HASH_TABLE_SIZE →
  insert_entry t2 (insert_entry t1 tbl s i) s i = insert_entry t2 tbl s i.
Proof.
  intros Hlen.
  rewrite (insert_entry_eq t2), (insert_entry_eq t1), (insert_entry_eq t2).
  pose proof (hash_index_lt tbl s (to_uint16 i) Hlen) as Hlt.
  set (k := Z.to_nat (hash_function s (to_uint16 i))) in *.
  set (n1 := {| e_src := s; e_packet_id := to_uint16 i; e_timestamp := t1 |}).
  set (n2 := {| e_src := s; e_packet_id := to_uint16 i; e_timestamp := t2 |}).
  rewrite bucket_insert_eq by exact Hlt.
  rewrite list_insert_insert_eq. f_equal.
  destruct (replace_entry s (to_uint16 i) n1 (bucket tbl k)) as [c1|] eqn:Hrep;
    cbn [default from_option id].
  - rewrite (replace_entry_twice s (to_uint16 i) n1 n2 _ _ eq_refl Hrep).
    destruct (replace_entry s (to_uint16 i) n2 (bucket tbl k)) eqn:Hrep2;
      [reflexivity|].
    apply replace_entry_None in Hrep2.
    apply (replace_entry_None _ _ n1) in Hrep2. congruence.
  - cbn [replace_entry]. subst n1.
    rewrite (same_key_new_entry t1 s (to_uint16 i)).
    apply replace_entry_None in Hrep.
    apply (replace_entry_None _ _ n2) in Hrep. rewrite Hrep. reflexivity.
Qed.

(** C10: the cache identifies a packet by its source and its packet id
    modulo 2^16.  The entry an insertion stores carries the packet id
    reduced modulo 2^16.  For two 32-bit packet ids congruent modulo 2^16
    ([id1] and [id2]), inserting the one or the other gives the same table,
    looking up the one or the other gives the same answer, a lookup of the
    one finds the entry inserted for the other, and inserting the second
    after the first overwrites the first's entry instead of adding one.  A
    packet id that is not congruent to them ([id3]) is another entry: its
    lookup is not answered by theirs, and its insertion leaves theirs in
    place beside its own. *)
Theorem C10_packet_id_mod_2_16 (tbl : list (list HashEntry))
    (t1 t2 s id1 id2 id3 : Z) :
  length tbl = Z.to_nat HASH_TABLE_SIZE →
  id1 mod 2 ^ 16 = id2 mod 2 ^ 16 →
  id1 mod 2 ^ 16 ≠ id3 mod 2 ^ 16 →
  find_entry s (id1 mod 2 ^ 16)
    (bucket (insert_entry t1 tbl s id1)
       (Z.to_nat (hash_function s (id1 mod 2 ^ 16))))
  = Some {| e_src := s; e_packet_id := id1 mod 2 ^ 16; e_timestamp := t1 |}
  ∧ insert_entry t1 tbl s id1 = insert_entry t1 tbl s id2
  ∧ (∀ now, get_timestamp now tbl s id1 = get_timestamp now tbl s id2)
  ∧ (∀ now,
       get_timestamp now (insert_entry t1 tbl s id1) s id2
       = if now - t1 >? ENTRY_TTL_SECONDS then -1 else t1)
  ∧ insert_entry t2 (insert_entry t1 tbl s id1) s id2
    = insert_entry t2 tbl s id2
  ∧ cache_size (insert_entry t2 (insert_entry t1 tbl s id1) s id2)
    = cache_size (insert_entry t1 tbl s id1)
  ∧ (∀ now,
       get_timestamp now (insert_entry t1 tbl s id1) s id3
       = get_timestamp now tbl s id3)
  ∧ (∀ now,
       get_timestamp now (insert_entry t2 (insert_entry t1 tbl s id1) s id3)
         s id1
       = if now - t1 >? ENTRY_TTL_SECONDS then -1 else t1)
  ∧ (∀ now,
       get_timestamp now (insert_entry t2 (insert_entry t1 tbl s id1) s id3)
         s id3
       = if now - t2 >? ENTRY_TTL_SECONDS then -1 else t2).
Proof.
  intros Hlen Hcong Hdiff.
  fold (to_uint16 id1) (to_uint16 id2) (to_uint16 id3) in *.
  assert (∀ t tb, insert_entry t tb s id1 = insert_entry t tb s id2) as Hins.
  { intros t tb. unfold insert_entry. rewrite Hcong. reflexivity. }
  assert (∀ now tb, get_timestamp now tb s id1 = get_timestamp now tb s id2)
    as Hget.
  { intros now tb. unfold get_timestamp. rewrite Hcong. reflexivity. }
  assert (length (insert_entry t1 tbl s id1) = Z.to_nat HASH_TABLE_SIZE)
    as Hlen1 by (by rewrite insert_entry_length).
  split; [by apply find_entry_insert_entry|].
  split; [apply Hins|]. split; [intros now; apply Hget|].
  split; [intros now; rewrite <- Hget;
          by apply get_timestamp_insert_entry|].
  split; [rewrite <- !Hins; by apply insert_entry_absorbs|].
  split.
  { rewrite <- Hins.
    apply (insert_entry_size_found t2 _ s id1
             {| e_src := s; e_packet_id := to_uint16 id1;
                e_timestamp := t1 |}).
    by apply find_entry_insert_entry. }
  split.
  { intros now. apply get_timestamp_insert_entry_ne. congruence. }
  split.
  { intros now. rewrite get_timestamp_insert_entry_ne by congruence.
    by apply get_timestamp_insert_entry. }
  intros now. by apply get_timestamp_insert_entry.
Qed.

Lemma C10_packet_id_mod_2_16_witness :
  find_entry 9 (0x10007 mod 2 ^ 16)
    (bucket (insert_entry 100 hash_table_init 9 0x10007)
       (Z.to_nat (hash_function 9 (0x10007 mod 2 ^ 16))))
  = Some {| e_src := 9; e_packet_id := 0x10007 mod 2 ^ 16;
            e_timestamp := 100 |}
  ∧ insert_entry 100 hash_table_init 9 0x10007
    = insert_entry 100 hash_table_init 9 7
  ∧ (∀ now, get_timestamp now hash_table_init 9 0x10007
            = get_timestamp now hash_table_init 9 7)
  ∧ (∀ now,
       get_timestamp now (insert_entry 100 hash_table_init 9 0x10007) 9 7
       = if now - 100 >? ENTRY_TTL_SECONDS then -1 else 100)
  ∧ insert_entry 150 (insert_entry 100 hash_table_init 9 0x10007) 9 7
    = insert_entry 150 hash_table_init 9 7
  ∧ cache_size (insert_entry 150 (insert_entry 100 hash_table_init 9 0x10007)
                  9 7)
    = cache_size (insert_entry 100 hash_table_init 9 0x10007)
  ∧ (∀ now,
       get_timestamp now (insert_entry 100 hash_table_init 9 0x10007) 9
         0x20008
       = get_timestamp now hash_table_init 9 0x20008)
  ∧ (∀ now,
       get_timestamp now
         (insert_entry 150 (insert_entry 100 hash_table_init 9 0x10007) 9
            0x20008)
         9 0x10007
       = if now - 100 >? ENTRY_TTL_SECONDS then -1 else 100)
  ∧ (∀ now,
       get_timestamp now
         (insert_entry 150 (insert_entry 100 hash_table_init 9 0x10007) 9
            0x20008)
         9 0x20008
       = if now - 150 >? ENTRY_TTL_SECONDS then -1 else 150).
Proof.
  apply (C10_packet_id_mod_2_16 hash_table_init 100 150 9 0x10007 7 0x20008).
  - reflexivity.
  - reflexivity.
  - vm_compute. discriminate.
Defined.
